(** * boilr, package [template]: context binding and template execution

    A shallow embedding of [pkg/template/template.go]: the binder that turns
    the context of a template into a table of zero-argument functions
    ([BindPrompts], [handleBindDefaults], [handleBindPrompts]), the loader
    [Get] and the directory renderer [Execute], followed by the properties
    the specification states about them. *)

From Stdlib Require Import Floats Ascii.
From stdpp Require Import gmap strings list fin_maps.

#[local] Set Warnings "-register-all".
#[local] Open Scope string_scope.
#[local] Open Scope list_scope.

(** ** Dynamic values

    [json.Unmarshal] into [map[string]interface{}] stores [nil], [bool],
    [float64], [string], [[]interface{}] and [map[string]interface{}].

    A Go map is kept as an association list: [range] visits the keys in an
    order the language leaves open, and the order of the list stands for the
    order one run happens to take; [m[k]] is [index]. *)

Inductive Value :=
| VNil
| VBool (b : bool)
| VNum (f : float)
| VStr (s : string)
| VList (l : list Value)
| VMap (m : list (string * Value)).

Abbreviation GoMap := (list (string * Value)).

(** [for k := range m] *)
Definition keys (m : GoMap) : list string := m.*1.

(** [m[k]]: the zero value of [interface{}] when the key is missing. *)
Fixpoint index (m : GoMap) (k : string) : Value :=
  match m with
  | [] => VNil
  | (k', v) :: m' => if decide (k' = k) then v else index m' k
  end.

(** ** Outcome of calling a closure *)

Inductive Outcome (A : Type) :=
| Ret (a : A)      (* the call returns *)
| Panic            (* a run-time panic: index out of range, failed type assertion *)
| Abort.           (* the user aborted a prompt *)
Arguments Ret {A} a.
Arguments Panic {A}.
Arguments Abort {A}.

(** ** Prompts

    Package [prompt] is outside this file. *)

(** The closure [prompt.New(field, defval)] returns: it owns one memo cell. *)
Record Prompt := { cell : nat; field : string; defval : Value }.

(** The memo cells of all prompt closures, the cells that asked the user (in
    order), and the answers the user is still going to give. *)
Record World := {
  cache : gmap nat Value;
  next : nat;
  asked : list nat;
  pending : list Value
}.

(** Modelled from the spec: [prompt.New] (package [prompt] is missing). The
    specification says of a prompt-backed binding that it is "evaluated lazily
    and memoized on first use" and "must only ask the user once and memoize
    the answer for the duration of the render"; building the closure asks
    nothing and reserves a fresh memo cell. *)
Definition prompt_New (field : string) (defval : Value) (w : World) : Prompt * World :=
  ({| cell := next w; field := field; defval := defval |},
   {| cache := cache w; next := S (next w); asked := asked w; pending := pending w |}).

(** Modelled from the spec: calling the closure of [prompt.New]. A filled cell
    answers without asking; otherwise the user is asked once, and an aborted
    prompt is "a fatal input error". *)
Definition callPrompt (p : Prompt) (w : World) : Outcome Value * World :=
  match cache w !! cell p with
  | Some v => (Ret v, w)
  | None =>
      match pending w with
      | [] =>
          (Abort,
           {| cache := cache w; next := next w;
              asked := asked w ++ [cell p]; pending := [] |})
      | a :: rest =>
          (Ret a,
           {| cache := <[cell p := a]> (cache w); next := next w;
              asked := asked w ++ [cell p]; pending := rest |})
      end
  end.

(** ** Bindings: the closures stored in the function map *)

Inductive Binding :=
| BFalse                                                  (* line 221 *)
| BDefault (val : Value)                                  (* lines 225-235, 238-248 *)
| BPrompt (p : Prompt)                                    (* line 278 *)
| BGate (advancedMode : Prompt)                           (* lines 257-261 *)
| BChild (advancedMode : Prompt) (val : Value) (p : Prompt).   (* lines 267-275 *)

Definition invoke (b : Binding) (w : World) : Outcome Value * World :=
  match b with
  | BFalse => (Ret (VBool false), w)
  | BDefault val =>
      match val with
      | VList l =>
          (* First is the default value if it's a slice: [val[0]] *)
          match l with
          | x :: _ => (Ret x, w)
          | [] => (Panic, w)
          end
      | _ => (Ret val, w)
      end
  | BPrompt p => callPrompt p w
  | BGate advancedMode => callPrompt advancedMode w
  | BChild advancedMode val p =>
      match callPrompt advancedMode w with
      | (Ret (VBool isAdvanced), w') =>
          if isAdvanced then callPrompt p w' else (Ret val, w')
      | (Ret _, w') => (Panic, w')      (* [advancedMode().(bool)] *)
      | (Panic, w') => (Panic, w')
      | (Abort, w') => (Abort, w')
      end
  end.

(** ** The template and its binder

    [t.FuncMap] is the package variable [FuncMap] itself ([Get] stores the
    map, a reference, in the field), and [Execute] hands that same variable
    to [text/template]: there is one function map, threaded as state. *)

Record dirTemplate := {
  Path : list string;
  Context : GoMap;
  ShouldUseDefaults : bool
}.

Definition UseDefaultValues (t : dirTemplate) : dirTemplate :=
  {| Path := Path t; Context := Context t; ShouldUseDefaults := true |}.

Definition handleBindDefaults (t : dirTemplate) (parentKey : string)
    (fm : gmap string Binding) : gmap string Binding :=
  match index (Context t) parentKey with
  | VMap childMap =>
      let fm1 :=
        if decide (0 < length childMap) then <[parentKey := BFalse]> fm else fm in
      foldl (fun fm childKey => <[childKey := BDefault (index childMap childKey)]> fm)
            fm1 (keys childMap)
  | _ => <[parentKey := BDefault (index (Context t) parentKey)]> fm
  end.

Definition handleBindPrompts (t : dirTemplate) (parentKey : string)
    (st : gmap string Binding * World) : gmap string Binding * World :=
  let '(fm, w) := st in
  match index (Context t) parentKey with
  | VMap childMap =>
      let '(advancedMode, w1) := prompt_New parentKey (VBool false) w in
      let fm1 :=
        if decide (0 < length childMap)
        then <[parentKey := BGate advancedMode]> fm else fm in
      foldl (fun '(fm, w) childKey =>
               let '(childPrompt, w') :=
                 prompt_New childKey (index childMap childKey) w in
               (<[childKey := BChild advancedMode (index childMap childKey) childPrompt]> fm,
                w'))
            (fm1, w1) (keys childMap)
  | _ =>
      let '(p, w1) := prompt_New parentKey (index (Context t) parentKey) w in
      (<[parentKey := BPrompt p]> fm, w1)
  end.

Definition BindPrompts (t : dirTemplate) (st : gmap string Binding * World)
    : gmap string Binding * World :=
  foldl (fun st parentKey =>
           if ShouldUseDefaults t
           then (handleBindDefaults t parentKey st.1, st.2)
           else handleBindPrompts t parentKey st)
        st (keys (Context t)).

(** A world in which no prompt closure exists yet and the user will answer
    [answers]. *)
Definition fresh (answers : list Value) : World :=
  {| cache := ∅; next := 0; asked := []; pending := answers |}.

(** Evaluating templates calls bindings by name, any number of times and in
    any order: [calls] is such a run. *)
Definition call (fm : gmap string Binding) (name : string) (w : World) : World :=
  match fm !! name with
  | Some b => (invoke b w).2
  | None => w
  end.

Definition calls (fm : gmap string Binding) (names : list string) (w : World) : World :=
  foldl (fun w name => call fm name w) w names.

(** ** The vocabulary of the specification *)

(** The declared default of a variable: "first element if the default is a
    List", the value itself otherwise. *)
Inductive declared_default : Value → Value → Prop :=
| dd_first x xs : declared_default (VList (x :: xs)) x
| dd_self v : (∀ l, v ≠ VList l) → declared_default v v.

(** The names a context declares: every top-level key and, for a Group, the
    keys of its children. *)
Definition children (v : Value) : list string :=
  match v with
  | VMap childMap => keys childMap
  | _ => []
  end.

Definition all_names (ctx : GoMap) : list string :=
  ctx ≫= λ kv, kv.1 :: children kv.2.


(** ** Sample contexts *)

Definition sample_context : GoMap :=
  [("name", VStr "World");
   ("license", VList [VStr "MIT"; VStr "GPL"]);
   ("server", VMap [("port", VStr "8080"); ("proto", VList [VStr "tcp"; VStr "udp"])])].

Definition sample_defaults : dirTemplate :=
  {| Path := ["tmpl"; "template"]; Context := sample_context; ShouldUseDefaults := true |}.

Definition sample_interactive : dirTemplate :=
  {| Path := ["tmpl"; "template"]; Context := sample_context; ShouldUseDefaults := false |}.


(** A Group with a list child and a scalar child. *)
Definition net_context : GoMap :=
  [("net", VMap [("proto", VList [VStr "tcp"; VStr "udp"]); ("port", VStr "80")])].

Definition with_context (ctx : GoMap) (defaults : bool) : dirTemplate :=
  {| Path := ["tmpl"; "template"]; Context := ctx; ShouldUseDefaults := defaults |}.

(** The world only moves forward: filled memo cells keep their value, and
    once the user has no answer left nothing more is stored. *)
Definition extends (w w' : World) : Prop :=
  cache w ⊆ cache w' ∧ (pending w = [] → pending w' = [] ∧ cache w' = cache w) ∧
  asked w `prefix_of` asked w'.

(** What the specification promises of the names of a context: each is bound. *)
Definition every_name_bound (ctx : GoMap) (fm : gmap string Binding) : Prop :=
  ∀ n, n ∈ all_names ctx → is_Some (fm !! n).

(** The role of a memo cell, by the place that allocated it. *)
Inductive Role :=
| RTop                  (* line 278 *)
| RGate                 (* line 254 *)
| RChild (gate : nat).  (* line 265, inside the Group whose gate cell is [gate] *)

Definition role_ok (roles : gmap nat Role) (b : Binding) : Prop :=
  match b with
  | BFalse | BDefault _ => True
  | BPrompt p => roles !! cell p = Some RTop
  | BGate a => roles !! cell a = Some RGate
  | BChild a _ p => roles !! cell a = Some RGate ∧ roles !! cell p = Some (RChild (cell a))
  end.

Definition wf_table (fm : gmap string Binding) (roles : gmap nat Role) (n : nat) : Prop :=
  (∀ c r, roles !! c = Some r → c < n) ∧
  (∀ name b, fm !! name = Some b → role_ok roles b).

(** ** Auxiliary notions for the proofs about the binder *)

(** Both handlers assign only the parent key and the keys of its children. *)
Definition written (t : dirTemplate) (k : string) : list string :=
  k :: children (index (Context t) k).

(** The loop of [BindPrompts] over any list of keys. *)
Definition bindOver (t : dirTemplate) (ks : list string)
    (st : gmap string Binding * World) : gmap string Binding * World :=
  foldl (λ st parentKey,
           if ShouldUseDefaults t
           then (handleBindDefaults t parentKey st.1, st.2)
           else handleBindPrompts t parentKey st) st ks.

(** The gate prompt [handleBindPrompts] creates for [k] in world [w]. *)
Definition gate_of (k : string) (w : World) : Prompt :=
  {| cell := next w; field := k; defval := VBool false |}.

(** The names the handler of [k] is sure to bind: the key itself unless it
    is an empty Group, and the children. *)
Definition bound_by (t : dirTemplate) (k : string) : list string :=
  match index (Context t) k with
  | VMap cm => (if decide (cm = []) then [] else [k]) ++ keys cm
  | _ => [k]
  end.

(** A child prompt has asked only if its gate is memoized as [true]. *)
Definition gated (roles : gmap nat Role) (w : World) : Prop :=
  ∀ c g, roles !! c = Some (RChild g) → c ∈ asked w → cache w !! g = Some (VBool true).

(** ** Templates

    [text/template] is a library; what follows is the fragment of it the
    properties below need: literal text, a call [{{name}}] of a function of
    the function map, and a field [{{.name}}] of the data. A template that
    uses anything else is reported as [Unmodelled], never given a made-up
    meaning. *)

Inductive Chunk :=
| CText (s : string)
| CAction (body : string)
| CUnclosed.

Definition push_text (a : ascii) (cs : list Chunk) : list Chunk :=
  match cs with
  | CText s :: cs' => CText (String a s) :: cs'
  | _ => CText (String a "") :: cs
  end.

Definition push_action (a : ascii) (cs : list Chunk) : list Chunk :=
  match cs with
  | CAction s :: cs' => CAction (String a s) :: cs'
  | _ => cs
  end.

(** [s] starts with the two-character delimiter [dd]. *)
Definition at_delim (d : ascii) (s : string) : bool :=
  match s with
  | String a (String b _) => Ascii.eqb a d && Ascii.eqb b d
  | _ => false
  end.

(** The lexer: text up to the next [{{], an action up to the next [}}]. *)
Fixpoint chunks (inAction : bool) (s : string) : list Chunk :=
  match s with
  | "" => if inAction then [CUnclosed] else []
  | String a s' =>
      if inAction then
        if at_delim "}" s
        then match s' with
             | String _ rest => CAction "" :: chunks false rest
             | "" => [CUnclosed]
             end
        else push_action a (chunks true s')
      else
        if at_delim "{" s
        then match s' with
             | String _ rest => chunks true rest
             | "" => [CUnclosed]
             end
        else push_text a (chunks false s')
  end.

Definition is_blank (a : ascii) : bool :=
  Ascii.eqb a " " || Ascii.eqb a "009".

Definition is_digit (a : ascii) : bool :=
  ((48 <=? nat_of_ascii a) && (nat_of_ascii a <=? 57))%nat.

Definition is_ident_char (a : ascii) : bool :=
  let n := nat_of_ascii a in
  ((65 <=? n)%nat && (n <=? 90)%nat) || ((97 <=? n)%nat && (n <=? 122)%nat)
  || (n =? 95)%nat || is_digit a.

Fixpoint ltrim (s : string) : string :=
  match s with
  | String a s' => if is_blank a then ltrim s' else s
  | "" => ""
  end.

Fixpoint span_ident (s : string) : string * string :=
  match s with
  | String a s' =>
      if is_ident_char a
      then let '(i, rest) := span_ident s' in (String a i, rest)
      else ("", s)
  | "" => ("", "")
  end.

Definition is_ident (s : string) : bool :=
  match s with
  | String a _ => negb (is_digit a)
  | "" => false
  end.

(** Words the lexer takes for itself; they never name a function. *)
Definition is_keyword (s : string) : bool :=
  bool_decide (s ∈ ["block"; "break"; "continue"; "define"; "else"; "end"; "if";
                    "range"; "nil"; "template"; "with"; "true"; "false"]).

Inductive TNode :=
| NText (s : string)
| NField (name : string)     (* [{{.name}}] *)
| NCall (name : string).     (* [{{name}}], [name] a key of the function map *)

Inductive Parsed :=
| POk (nodes : list TNode)
| PError                     (* [Parse] returns an error *)
| PUnmodelled.

Definition action (funcs : gmap string Binding) (body : string) : option TNode :=
  match ltrim body with
  | String "."%char s =>
      let '(i, rest) := span_ident s in
      if is_ident i && bool_decide (ltrim rest = "") then Some (NField i) else None
  | s =>
      let '(i, rest) := span_ident s in
      if is_ident i && bool_decide (ltrim rest = "") && negb (is_keyword i)
      then match funcs !! i with Some _ => Some (NCall i) | None => None end
      else None
  end.

Fixpoint nodes_of (funcs : gmap string Binding) (cs : list Chunk) : Parsed :=
  match cs with
  | [] => POk []
  | c :: cs' =>
      match c, nodes_of funcs cs' with
      | CUnclosed, _ => PError
      | _, PError => PError
      | CText s, POk ns => POk (NText s :: ns)
      | CAction body, POk ns =>
          match action funcs body with
          | Some n => POk (n :: ns)
          | None => PUnmodelled
          end
      | _, PUnmodelled => PUnmodelled
      end
  end.

(** [template.New(..).Option(Options...).Funcs(sprig.TxtFuncMap()).Funcs(FuncMap).Parse(s)] *)
Definition Parse (funcs : gmap string Binding) (s : string) : Parsed :=
  nodes_of funcs (chunks false s).

(** The option [missingkey] set through the package variable [Options],
    which is declared outside this file. *)
Inductive MissingKey := MKInvalid | MKZero | MKError.

Inductive Errno := ENOENT | EEXIST | ENOTDIR | EISDIR | ENOTEMPTY | EBUSY.

Inductive Error :=
| ErrOS (e : Errno)          (* an error of package [os] *)
| ErrExec                    (* an error of [Execute] / [ExecuteTemplate] *)
| ErrJSON.                   (* an error of [json.Unmarshal] *)

(** How a piece of the program ends. *)
Inductive Status :=
| Done
| Failed (e : Error)         (* returns a non-nil error *)
| Panicked
| Aborted                    (* the user aborted a prompt *)
| Unmodelled.

(** Executing a template with [nil] data, writing to [out]. What was written
    before an error stays written. *)
Fixpoint exec (mk : MissingKey) (funcs : gmap string Binding) (ns : list TNode)
    (w : World) (out : string) : Status * string * World :=
  match ns with
  | [] => (Done, out, w)
  | NText s :: ns' => exec mk funcs ns' w (out +:+ s)
  | NField _ :: ns' =>
      (* the data is nil: there is no field to find *)
      match mk with
      | MKError => (Failed ErrExec, out, w)
      | _ => exec mk funcs ns' w (out +:+ "<no value>")
      end
  | NCall name :: ns' =>
      match funcs !! name with
      | None => (Failed ErrExec, out, w)
      | Some b =>
          match invoke b w with
          | (Ret (VStr s), w') => exec mk funcs ns' w' (out +:+ s)
          | (Ret (VBool b), w') =>
              exec mk funcs ns' w' (out +:+ (if b then "true" else "false"))
          | (Ret _, w') => (Unmodelled, out, w')
          | (Panic, w') => (Failed ErrExec, out, w')   (* recovered by the library *)
          | (Abort, w') => (Aborted, out, w')
          end
      end
  end.

(** [template.Must(...Parse(s))] followed by [Execute(out, nil)]. *)
Definition render (mk : MissingKey) (funcs : gmap string Binding) (s : string)
    (w : World) : Status * string * World :=
  match Parse funcs s with
  | POk ns => exec mk funcs ns w ""
  | PError => (Panicked, "", w)
  | PUnmodelled => (Unmodelled, "", w)
  end.

(** No [{{] occurs in [s]. *)
Fixpoint plain (s : string) : bool :=
  match s with
  | String a s' => negb (at_delim "{" s) && plain s'
  | "" => true
  end.

(** ** The file system

    A tree of directories and regular files; a path is the list of its
    components below the root. Permission bits are stored, not enforced, and
    the umask is not applied. *)

Inductive FNode :=
| File (mode : N) (data : string)
| Dir (entries : gmap string FNode).

(** [os.Lstat]: the node a path leads to. *)
Fixpoint lookup_path (p : list string) (n : FNode) : Errno + FNode :=
  match p with
  | [] => inr n
  | c :: p' =>
      match n with
      | File _ _ => inl ENOTDIR
      | Dir es =>
          match es !! c with
          | None => inl ENOENT
          | Some n' => lookup_path p' n'
          end
      end
  end.

(** Replace what the last component of [p] names in its directory by what
    [f] makes of it ([None]: no entry). *)
Fixpoint update (p : list string) (f : option FNode → Errno + option FNode)
    (n : FNode) : Errno + FNode :=
  match p with
  | [] =>
      (* the root itself has no entry to replace *)
      match f (Some n) with
      | inl e => inl e
      | inr _ => inl EBUSY
      end
  | c :: p' =>
      match n with
      | File _ _ => inl ENOTDIR
      | Dir es =>
          match p' with
          | [] =>
              match f (es !! c) with
              | inl e => inl e
              | inr (Some n') => inr (Dir (<[c := n']> es))
              | inr None => inr (Dir (delete c es))
              end
          | _ :: _ =>
              match es !! c with
              | None => inl ENOENT
              | Some n' =>
                  match update p' f n' with
                  | inl e => inl e
                  | inr n'' => inr (Dir (<[c := n'']> es))
                  end
              end
          end
      end
  end.

(** [os.Mkdir(p, 0755)] *)
Definition Mkdir (p : list string) : FNode → Errno + FNode :=
  update p (λ o, match o with
                 | Some _ => inl EEXIST
                 | None => inr (Some (Dir ∅))
                 end).

(** [os.Remove(p)]: a file, or a directory that is empty. *)
Definition Remove (p : list string) : FNode → Errno + FNode :=
  update p (λ o, match o with
                 | None => inl ENOENT
                 | Some (File _ _) => inr None
                 | Some (Dir es) => if decide (dom es = ∅) then inr None else inl ENOTEMPTY
                 end).

(** [os.OpenFile(p, os.O_CREATE|os.O_WRONLY|os.O_TRUNC, perm)] *)
Definition OpenFile (p : list string) (perm : N) : FNode → Errno + FNode :=
  update p (λ o, match o with
                 | None => inr (Some (File perm ""))
                 | Some (File m _) => inr (Some (File m ""))
                 | Some (Dir _) => inl EISDIR
                 end).

(** Writing through the handle [OpenFile] returned: nothing else touches
    the path while the handle is open, so the path still names the file. *)
Definition Write (p : list string) (buf : string) : FNode → Errno + FNode :=
  update p (λ o, match o with
                 | None => inl ENOENT
                 | Some (File m d) => inr (Some (File m (d +:+ buf)))
                 | Some (Dir _) => inl EISDIR
                 end).

(** [ioutil.ReadFile(p)] *)
Definition ReadFile (p : list string) (n : FNode) : Errno + string :=
  match lookup_path p n with
  | inl e => inl e
  | inr (File _ d) => inr d
  | inr (Dir _) => inl EISDIR
  end.

(** [os.IsNotExist], [os.IsExist] *)
Definition IsNotExist (e : Errno) : bool := match e with ENOENT => true | _ => false end.
Definition IsExist (e : Errno) : bool := match e with EEXIST => true | _ => false end.

(** ** Paths *)

(** The components of a slash-separated path. *)
Fixpoint split_slash (s : string) : list string :=
  match s with
  | "" => [""]
  | String a s' =>
      if Ascii.eqb a "/" then "" :: split_slash s'
      else match split_slash s' with
           | c :: cs => String a c :: cs
           | [] => [String a ""]
           end
  end.

(** [filepath.Join(dir, name)], [dir] an absolute, clean path: empty and [.]
    components vanish, [..] steps up and stays at the root. *)
Definition Join (dir : list string) (name : string) : list string :=
  foldl (λ acc c,
           if bool_decide (c = "" ∨ c = ".") then acc
           else if bool_decide (c = "..") then removelast acc
           else acc ++ [c])
        dir (split_slash name).

(** [filepath.Rel(t.Path, filename)] for the entry [rel] below [t.Path]. *)
Fixpoint join_slash (cs : list string) : string :=
  match cs with
  | [] => ""
  | c :: cs' =>
      match cs' with
      | [] => c
      | _ :: _ => c +:+ "/" +:+ join_slash cs'
      end
  end.

Definition Rel (rel : list string) : string :=
  match rel with
  | [] => "."
  | _ :: _ => join_slash rel
  end.

(** ** Executing a template *)

(** The tree found at [t.Path], directories listed in the order
    [filepath.Walk] takes them (sorted by name). The template and the
    destination are taken to be disjoint parts of the file system. *)
Inductive SrcNode :=
| SFile (mode : N) (data : string)
| SDir (entries : list (string * SrcNode)).

(** [regexp.MustCompile(`\S`)] finds no match: every byte is one of tab,
    newline, form feed, carriage return, space. *)
Definition is_space (a : ascii) : bool :=
  Ascii.eqb a "009" || Ascii.eqb a "010" || Ascii.eqb a "012" || Ascii.eqb a "013"
  || Ascii.eqb a " ".

Fixpoint isOnlyWhitespace (buf : string) : bool :=
  match buf with
  | "" => true
  | String a buf' => is_space a && isOnlyWhitespace buf'
  end.

Record State := {
  funcs : gmap string Binding;      (* the package variable [FuncMap] *)
  world : World;
  disk : FNode
}.

Definition set_disk (st : State) (d : FNode) : State :=
  {| funcs := funcs st; world := world st; disk := d |}.

Definition set_world (st : State) (w : World) : State :=
  {| funcs := funcs st; world := w; disk := disk st |}.

(** The deferred function of lines 183-194. *)
Definition prune (fname : list string) (d : FNode) : FNode :=
  match ReadFile fname d with
  | inl _ => d                      (* logged, nothing else *)
  | inr contents =>
      if isOnlyWhitespace contents
      then match Remove fname d with
           | inr d' => d'
           | inl _ => d               (* the error of [os.Remove] is dropped *)
           end
      else d
  end.

(** The function [filepath.Walk] is given (lines 131-215), for the entry
    [rel] below [t.Path]; [info] is [inl tt] for a directory and [inr (mode,
    data)] for a file. Messages of [tlog] are left out. *)
Definition visit (mk : MissingKey) (dirPrefix : list string) (rel : list string)
    (info : unit + N * string) (st : State) : Status * State :=
  let oldName := Rel rel in
  match render mk (funcs st) oldName (world st) with
  | (Done, newName, w1) =>
      let st1 := set_world st w1 in
      let target := Join dirPrefix newName in
      match info with
      | inl _ =>
          match Mkdir target (disk st1) with
          | inl e => if IsExist e then (Done, st1) else (Failed (ErrOS e), st1)
          | inr d => (Done, set_disk st1 d)
          end
      | inr (mode, data) =>
          let write := λ d1,
            match OpenFile target mode d1 with
            | inl e => (Failed (ErrOS e), set_disk st1 d1)
            | inr d2 =>
                (* from here on the deferred pruning runs on every way out *)
                match Parse (funcs st1) data with
                | PError => (Panicked, set_disk st1 (prune target d2))
                | PUnmodelled => (Unmodelled, set_disk st1 d2)
                | POk ns =>
                    let '(r, out, w2) := exec mk (funcs st1) ns (world st1) "" in
                    let d3 := match Write target out d2 with inr d => d | inl _ => d2 end in
                    (r, {| funcs := funcs st1; world := w2; disk := prune target d3 |})
                end
            end in
          (* Delete target file if it exists *)
          match Remove target (disk st1) with
          | inl e => if IsNotExist e then write (disk st1) else (Failed (ErrOS e), st1)
          | inr d1 => write d1
          end
      end
  | (r, _, w1) => (r, set_world st w1)
  end.

(** [filepath.Walk(t.Path, ...)] below the root: the entry itself first, then,
    for a directory, its entries in order; the first error ends the walk. *)
Fixpoint walk (mk : MissingKey) (dirPrefix : list string) (rel : list string)
    (n : SrcNode) (st : State) : Status * State :=
  match n with
  | SFile mode data => visit mk dirPrefix rel (inr (mode, data)) st
  | SDir entries =>
      match visit mk dirPrefix rel (inl tt) st with
      | (Done, st1) =>
          (fix walkEntries (es : list (string * SrcNode)) (st : State) : Status * State :=
             match es with
             | [] => (Done, st)
             | (name, child) :: es' =>
                 match walk mk dirPrefix (rel ++ [name]) child st with
                 | (Done, st') => walkEntries es' st'
                 | r => r
                 end
             end) entries st1
      | r => r
      end
  end.

(** The loop over the entries of a directory, on its own. *)
Fixpoint walkEntries (mk : MissingKey) (dirPrefix : list string) (rel : list string)
    (es : list (string * SrcNode)) (st : State) : Status * State :=
  match es with
  | [] => (Done, st)
  | (name, child) :: es' =>
      match walk mk dirPrefix (rel ++ [name]) child st with
      | (Done, st') => walkEntries mk dirPrefix rel es' st'
      | r => r
      end
  end.

(** [t.Execute(dirPrefix)]; [src] is what [os.Lstat(t.Path)] and the walk
    below it find. *)
Definition Execute (mk : MissingKey) (t : dirTemplate) (src : Errno + SrcNode)
    (dirPrefix : list string) (st : State) : Status * State :=
  let '(fm, w) := BindPrompts t (funcs st, world st) in
  let st0 := {| funcs := fm; world := w; disk := disk st |} in
  match src with
  | inl e => (Failed (ErrOS e), st0)
  | inr n => walk mk dirPrefix [] n st0
  end.

(** ** Loading a template

    [boilr.ContextFileName] and [boilr.TemplateDirName] are constants of
    another package and [json.Unmarshal] is a library function: all three
    are parameters. The result is the pair [Get] returns; the metadata is
    left out. *)
Definition Get (ContextFileName TemplateDirName : string)
    (Unmarshal : string → option GoMap)
    (absPath : list string) (d : FNode) : option dirTemplate * option Error :=
  let ctxt : Error + GoMap :=
    match lookup_path (Join absPath ContextFileName) d with
    | inl e => if IsNotExist e then inr [] else inl (ErrOS e)
    | inr (Dir _) => inl (ErrOS EISDIR)           (* [ioutil.ReadAll] fails *)
    | inr (File _ buf) =>
        match Unmarshal buf with
        | None => inl ErrJSON
        | Some metadata => inr metadata
        end
    end in
  match ctxt with
  | inl err => (None, Some err)
  | inr ctxt =>
      let err :=
        match lookup_path absPath d with         (* [times.Stat(absPath)] *)
        | inl e => Some (ErrOS e)
        | inr _ => None
        end in
      (Some {| Path := Join absPath TemplateDirName; Context := ctxt;
               ShouldUseDefaults := false |}, err)
  end.

(** ** What a render leaves behind *)

(** What the last component of [p] names in its directory, if the
    directory can be reached. *)
Fixpoint entry (p : list string) (n : FNode) : Errno + option FNode :=
  match p with
  | [] => inr (Some n)
  | c :: p' =>
      match n with
      | File _ _ => inl ENOTDIR
      | Dir es =>
          match p' with
          | [] => inr (es !! c)
          | _ :: _ =>
              match es !! c with
              | None => inl ENOENT
              | Some n' => entry p' n'
              end
          end
      end
  end.

(** The tree with [n] at [p]. *)
Fixpoint put (p : list string) (n : FNode) (d : FNode) : FNode :=
  match p with
  | [] => n
  | c :: p' =>
      match d with
      | File _ _ => d
      | Dir es =>
          match p' with
          | [] => Dir (<[c := n]> es)
          | _ :: _ =>
              match es !! c with
              | None => d
              | Some n' => Dir (<[c := put p' n n']> es)
              end
          end
      end
  end.

(** The tree with nothing at [p]. *)
Fixpoint del (p : list string) (d : FNode) : FNode :=
  match p with
  | [] => d
  | c :: p' =>
      match d with
      | File _ _ => d
      | Dir es =>
          match p' with
          | [] => Dir (delete c es)
          | _ :: _ =>
              match es !! c with
              | None => d
              | Some n' => Dir (<[c := del p' n']> es)
              end
          end
      end
  end.

Definition place (p : list string) (o : option FNode) (d : FNode) : FNode :=
  match o with
  | Some n => put p n d
  | None => del p d
  end.

(** The destination tree for a source tree: files whose content is only
    white space are missing, everything else is as in the source. *)
Fixpoint image (n : SrcNode) : option FNode :=
  match n with
  | SFile mode data => if isOnlyWhitespace data then None else Some (File mode data)
  | SDir entries =>
      Some (Dir ((fix images (es : list (string * SrcNode)) (acc : gmap string FNode) :=
                    match es with
                    | [] => acc
                    | (name, child) :: es' =>
                        images es' (match image child with
                                    | Some n' => <[name := n']> acc
                                    | None => acc
                                    end)
                    end) entries ∅))
  end.

Fixpoint images (es : list (string * SrcNode)) (acc : gmap string FNode)
    : gmap string FNode :=
  match es with
  | [] => acc
  | (name, child) :: es' =>
      images es' (match image child with
                  | Some n' => <[name := n']> acc
                  | None => acc
                  end)
  end.

(** A name a directory entry can have. *)
Fixpoint has_slash (s : string) : bool :=
  match s with
  | "" => false
  | String a s' => Ascii.eqb a "/" || has_slash s'
  end.

Definition file_name (c : string) : Prop :=
  c ≠ "" ∧ c ≠ "." ∧ c ≠ ".." ∧ has_slash c = false.


(** Neither the relative path of an entry nor the content of a file holds
    a template expression. *)
Fixpoint no_expressions (rel : list string) (n : SrcNode) : Prop :=
  plain (Rel rel) = true ∧
  match n with
  | SFile _ data => plain data = true
  | SDir entries =>
      (fix all (es : list (string * SrcNode)) : Prop :=
         match es with
         | [] => True
         | (name, child) :: es' => no_expressions (rel ++ [name]) child ∧ all es'
         end) entries
  end.




(** What [os.Remove] followed by [os.OpenFile] can replace: nothing, a
    file, or an empty directory. *)
Definition replaceable (o : option FNode) : Prop :=
  match o with
  | None => True
  | Some (File _ _) => True
  | Some (Dir es) => dom es = ∅
  end.

(** Induction on source trees, with the property at hand for every entry of
    a directory. *)
Fixpoint SrcNode_entries_ind (P : SrcNode → Prop)
    (Hfile : ∀ mode data, P (SFile mode data))
    (Hdir : ∀ es, Forall (λ x, P x.2) es → P (SDir es))
    (n : SrcNode) : P n :=
  match n with
  | SFile mode data => Hfile mode data
  | SDir es =>
      Hdir es
        ((fix entries (es : list (string * SrcNode)) : Forall (λ x, P x.2) es :=
            match es with
            | [] => @List.Forall_nil _ (λ x, P x.2)
            | x :: es' =>
                @List.Forall_cons _ (λ x, P x.2) x es'
                  (SrcNode_entries_ind P Hfile Hdir x.2) (entries es')
            end) es)
  end.

(** ** Sample states *)

Definition sample_funcs : gmap string Binding :=
  {[ "name" := BDefault (VStr "World") ]}.

(** A destination [out] that already has a longer [greeting.txt]. *)
Definition sample_disk : FNode :=
  Dir {[ "out" := Dir {[ "greeting.txt" :=
           File 384 "An older greeting, longer than the new one, is here." ]} ]}.

(** A destination [out] in which [docs] is a file. *)
Definition docs_file_disk : FNode :=
  Dir {[ "out" := Dir {[ "docs" := File 420 "notes" ]} ]}.

(** A destination [out] in which [greeting.txt] is a directory with an entry. *)
Definition blocked_disk : FNode :=
  Dir {[ "out" := Dir {[ "greeting.txt" := Dir {[ "keep" := File 420 "x" ]} ]} ]}.

Definition sample_state (d : FNode) : State :=
  {| funcs := sample_funcs; world := fresh []; disk := d |}.


(** ** A decoder for examples

    [json.Unmarshal] stays a parameter of [Get]. Where an example needs a
    decoder, this one stands in: it accepts the objects whose members are
    strings, written without white space and without escapes, and reports
    every other document as an error. *)

Inductive FlatState :=
| FStart | FOpen | FKey (k : string) | FColon (k : string) | FValue (k : string)
| FVal (k v : string) | FAfter | FNext | FEnd.

Fixpoint flat_members (s : string) (q : FlatState) (acc : GoMap) : option GoMap :=
  match s with
  | "" => match q with FEnd => Some acc | _ => None end
  | String a s' =>
      match q with
      | FStart => if Ascii.eqb a "{" then flat_members s' FOpen acc else None
      | FOpen =>
          if Ascii.eqb a "}" then flat_members s' FEnd acc
          else if Ascii.eqb a "034" then flat_members s' (FKey "") acc else None
      | FKey k =>
          if Ascii.eqb a "034" then flat_members s' (FColon k) acc
          else if Ascii.eqb a "\" then None
          else flat_members s' (FKey (k +:+ String a "")) acc
      | FColon k => if Ascii.eqb a ":" then flat_members s' (FValue k) acc else None
      | FValue k => if Ascii.eqb a "034" then flat_members s' (FVal k "") acc else None
      | FVal k v =>
          if Ascii.eqb a "034"
          then flat_members s' FAfter (filter (λ kv, kv.1 ≠ k) acc ++ [(k, VStr v)])
          else if Ascii.eqb a "\" then None
          else flat_members s' (FVal k (v +:+ String a "")) acc
      | FAfter =>
          if Ascii.eqb a "," then flat_members s' FNext acc
          else if Ascii.eqb a "}" then flat_members s' FEnd acc else None
      | FNext => if Ascii.eqb a "034" then flat_members s' (FKey "") acc else None
      | FEnd => None
      end
  end.

Definition flat_Unmarshal (buf : string) : option GoMap := flat_members buf FStart [].

Definition quoted (s : string) : string := String "034" s +:+ String "034" "".

(** A template directory [tmpl] without a context file, one with a context
    file, and one whose context file breaks off. *)
Definition registry_without_context : FNode :=
  Dir {[ "tmpl" := Dir {[ "template" := Dir ∅ ]} ]}.

Definition registry_with_context : FNode :=
  Dir {[ "tmpl" := Dir {[ "template" := Dir ∅;
                          "project.json" :=
                            File 420 ("{" +:+ quoted "name" +:+ ":" +:+ quoted "World" +:+ "}") ]} ]}.

Definition registry_with_broken_context : FNode :=
  Dir {[ "tmpl" := Dir {[ "template" := Dir ∅;
                          "project.json" := File 420 ("{" +:+ quoted "name" +:+ ":") ]} ]}.



(** ** Further notions: the binder as a list of assignments, orders of
    iteration, paths that part ways *)

(** The assignments [handleBindDefaults] makes for [parentKey], in order. *)
Definition defaults_writes_of (t : dirTemplate) (parentKey : string)
    : list (string * Binding) :=
  match index (Context t) parentKey with
  | VMap childMap =>
      (if decide (0 < length childMap) then [(parentKey, BFalse)] else [])
      ++ ((λ childKey, (childKey, BDefault (index childMap childKey))) <$> keys childMap)
  | v => [(parentKey, BDefault v)]
  end.

(** All assignments of [BindPrompts] in defaults-only mode, in order. *)
Definition defaults_writes (t : dirTemplate) : list (string * Binding) :=
  keys (Context t) ≫= defaults_writes_of t.

(** Two association lists that stand for the same Go map, ranged over in
    two orders. *)
Definition same_entries (m m' : GoMap) : Prop :=
  keys m ≡ₚ keys m' ∧ ∀ k, index m k = index m' k.

(** The same for a context, whose Groups are maps too. *)
Definition same_context (ctx ctx' : GoMap) : Prop :=
  keys ctx ≡ₚ keys ctx' ∧
  ∀ k, match index ctx k, index ctx' k with
       | VMap cm, VMap cm' => same_entries cm cm'
       | v, v' => v = v'
       end.

(** A binding that never touches the state of the prompts. *)
Definition never_asks (b : Binding) : Prop := ∀ w, (invoke b w).2 = w.




(** * Properties of the binder *)

Section Binder.
Implicit Types (t : dirTemplate) (fm : gmap string Binding) (w : World).
Implicit Types (m ctx : GoMap) (k c n : string) (v : Value).

Lemma index_elem_of m k v : NoDup (keys m) → (k, v) ∈ m → index m k = v.
Proof.
  induction m as [|[k' v'] m IH]; intros Hnd Hin; [by apply elem_of_nil in Hin|].
  simpl in *. apply NoDup_cons in Hnd as [Hk' Hnd].
  apply elem_of_cons in Hin as [[= -> ->]|Hin].
  - by rewrite decide_True.
  - rewrite decide_False; [by apply IH|].
    intros ->. apply Hk'. apply list_elem_of_fmap. by exists (k, v).
Qed.

Lemma elem_of_keys m k : k ∈ keys m ↔ ∃ v, (k, v) ∈ m.
Proof.
  unfold keys. rewrite list_elem_of_fmap. split.
  - intros [[k' v] [-> ?]]. by exists v.
  - intros [v ?]. by exists (k, v).
Qed.

(** A loop of assignments [fm[k] = g k] over a list of keys. *)
Lemma foldl_insert_lookup (g : string → Binding) ks fm n :
  foldl (λ fm k, <[k := g k]> fm) fm ks !! n
  = if decide (n ∈ ks) then Some (g n) else fm !! n.
Proof.
  revert fm. induction ks as [|k ks IH]; intros fm; [done|].
  cbn [foldl]. rewrite IH, lookup_insert.
  destruct (decide (n ∈ ks)) as [Hin|Hnin].
  - rewrite decide_True; [done|]. by apply elem_of_cons; right.
  - destruct (decide (k = n)) as [->|Hne].
    + rewrite decide_True; [done|]. by apply elem_of_cons; left.
    + rewrite decide_False; [done|]. rewrite elem_of_cons. by intros [?|?].
Qed.

Lemma handleBindDefaults_lookup t k fm n :
  handleBindDefaults t k fm !! n =
  match index (Context t) k with
  | VMap cm =>
      if decide (n ∈ keys cm) then Some (BDefault (index cm n))
      else if decide (k = n ∧ cm ≠ []) then Some BFalse else fm !! n
  | v => if decide (k = n) then Some (BDefault v) else fm !! n
  end.
Proof.
  unfold handleBindDefaults.
  destruct (index (Context t) k) as [| | | | |cm] eqn:E;
    try (rewrite lookup_insert; by repeat case_decide).
  rewrite (foldl_insert_lookup (λ c, BDefault (index cm c))).
  destruct (decide (n ∈ keys cm)); [done|].
  destruct (decide (0 < length cm)) as [Hlen|Hlen].
  - rewrite lookup_insert. destruct (decide (k = n)) as [->|].
    + rewrite decide_True; [done|]. split; [done|]. intros ->. cbn in Hlen. lia.
    + rewrite decide_False; [done|]. by intros [? _].
  - rewrite decide_False; [done|]. intros [_ Hne]. destruct cm; [done|].
    cbn in Hlen. lia.
Qed.


Lemma handleBindDefaults_frame t k fm n :
  n ∉ written t k → handleBindDefaults t k fm !! n = fm !! n.
Proof.
  unfold written. rewrite handleBindDefaults_lookup, not_elem_of_cons.
  intros [Hne Hch].
  destruct (index (Context t) k); simpl in *;
    try (rewrite decide_False; [done|congruence]).
  rewrite decide_False; [|done]. rewrite decide_False; [done|]. by intros [? _].
Qed.

Lemma handleBindPrompts_children t adv cm ks fm w :
  ∀ n,
  let r := foldl (λ '(fm, w) c,
               let '(p, w') := prompt_New c (index cm c) w in
               (<[c := BChild adv (index cm c) p]> fm, w'))
             (fm, w) ks in
  (r.1 !! n = fm !! n ∧ n ∉ ks ∨
   ∃ p, r.1 !! n = Some (BChild adv (index cm n) p) ∧ n ∈ ks ∧
        next w ≤ cell p < next r.2) ∧
  cache r.2 = cache w ∧ asked r.2 = asked w ∧ pending r.2 = pending w ∧
  next r.2 = next w + length ks.
Proof.
  intros n. revert fm w. induction ks as [|c ks IH]; intros fm w.
  - cbn. split; [left; split; [done|apply not_elem_of_nil]|].
    repeat split; lia.
  - cbn [foldl prompt_New].
    specialize (IH (<[c := BChild adv (index cm c)
                           {| cell := next w; field := c; defval := index cm c |}]> fm)
                   {| cache := cache w; next := S (next w);
                      asked := asked w; pending := pending w |}).
    cbn zeta in IH. destruct IH as [IH (Hc & Ha & Hp & Hn)]. cbn in Hc, Ha, Hp, Hn.
    split; [|repeat split; try done; cbn [length]; lia].
    destruct IH as [[Hl Hnin]|(p & Hl & Hin & Hcell)].
    + rewrite lookup_insert in Hl. destruct (decide (c = n)) as [->|Hne].
      * right. eexists. split; [exact Hl|]. split; [by apply elem_of_cons; left|].
        cbn. rewrite Hn. cbn. lia.
      * left. split; [done|]. rewrite elem_of_cons. by intros [?|?].
    + right. exists p. split; [done|]. split; [by apply elem_of_cons; right|].
      cbn in Hcell. lia.
Qed.


Lemma BindPrompts_bindOver t st : BindPrompts t st = bindOver t (keys (Context t)) st.
Proof. done. Qed.

Lemma bindOver_app t ks1 ks2 st :
  bindOver t (ks1 ++ ks2) st = bindOver t ks2 (bindOver t ks1 st).
Proof. apply foldl_app. Qed.

Lemma handleBindPrompts_frame t k fm w n :
  n ∉ written t k → (handleBindPrompts t k (fm, w)).1 !! n = fm !! n.
Proof.
  unfold written, handleBindPrompts. rewrite not_elem_of_cons. intros [Hne Hch].
  destruct (index (Context t) k) as [| | | | |cm] eqn:E; cbn [prompt_New fst];
    try by rewrite lookup_insert_ne.
  cbn in Hch.
  match goal with |- context [foldl ?f (?a, ?b) ?l] =>
    destruct (handleBindPrompts_children t
      {| cell := next w; field := k; defval := VBool false |} cm (keys cm) a b n)
      as [[[Hl _]|(p & _ & Hin & _)] _] end; [|done].
  etrans; [exact Hl|]. case_decide; [by rewrite lookup_insert_ne|done].
Qed.

Lemma bindOver_cons t k ks st :
  bindOver t (k :: ks) st = bindOver t ks (bindOver t [k] st).
Proof. done. Qed.

Lemma bindOver_one_frame t k st n :
  n ∉ written t k → (bindOver t [k] st).1 !! n = st.1 !! n.
Proof.
  intros Hn. unfold bindOver. cbn [foldl].
  destruct (ShouldUseDefaults t); cbn [fst].
  - by apply handleBindDefaults_frame.
  - destruct st. by apply handleBindPrompts_frame.
Qed.

Lemma bindOver_frame t ks st n :
  (∀ k, k ∈ ks → n ∉ written t k) → (bindOver t ks st).1 !! n = st.1 !! n.
Proof.
  revert st. induction ks as [|k ks IH]; intros st Hks; [done|].
  rewrite bindOver_cons, IH.
  - apply bindOver_one_frame, Hks. by apply elem_of_cons; left.
  - intros k' ?. apply Hks. by apply elem_of_cons; right.
Qed.

(** *** Names *)

Lemma all_names_cons k v l : all_names ((k, v) :: l) = k :: children v ++ all_names l.
Proof. done. Qed.

Lemma all_names_app l1 l2 : all_names (l1 ++ l2) = all_names l1 ++ all_names l2.
Proof. apply bind_app. Qed.

Lemma elem_of_all_names l k v n : (k, v) ∈ l → n ∈ k :: children v → n ∈ all_names l.
Proof. intros Hkv Hn. apply list_elem_of_bind. by exists (k, v). Qed.

Lemma keys_all_names l k : k ∈ keys l → k ∈ all_names l.
Proof.
  intros [v Hv]%elem_of_keys. apply (elem_of_all_names l k v); [done|].
  by apply elem_of_cons; left.
Qed.

Lemma NoDup_all_names_keys l : NoDup (all_names l) → NoDup (keys l).
Proof.
  induction l as [|[k v] l IH]; [constructor|].
  rewrite all_names_cons. intros [Hk Hnd]%NoDup_cons.
  apply NoDup_app in Hnd as (_ & _ & Hnd). cbn. apply NoDup_cons. split; [|by apply IH].
  intros Hin. apply Hk, elem_of_app. right. by apply keys_all_names.
Qed.

Lemma NoDup_all_names_children l k cm :
  NoDup (all_names l) → (k, VMap cm) ∈ l → NoDup (keys cm).
Proof.
  intros Hnd (l1 & l2 & ->)%list_elem_of_split.
  rewrite all_names_app, all_names_cons in Hnd.
  apply NoDup_app in Hnd as (_ & _ & Hnd). apply NoDup_cons in Hnd as [_ Hnd].
  by apply NoDup_app in Hnd as (Hnd & _ & _).
Qed.

Lemma written_later t l1 k v l2 k' n :
  Context t = l1 ++ (k, v) :: l2 → NoDup (all_names (Context t)) →
  k' ∈ keys l2 → n ∈ k :: children v → n ∉ written t k'.
Proof.
  intros Hctx Hnd [v' Hv']%elem_of_keys Hn Hw.
  assert (index (Context t) k' = v') as Hidx.
  { apply index_elem_of; [by apply NoDup_all_names_keys|].
    rewrite Hctx. apply elem_of_app. right. by apply elem_of_cons; right. }
  unfold written in Hw. rewrite Hidx in Hw.
  rewrite Hctx, all_names_app, all_names_cons in Hnd.
  apply NoDup_app in Hnd as (_ & _ & Hnd).
  rewrite app_comm_cons in Hnd. apply NoDup_app in Hnd as (_ & Hdisj & _).
  by apply (Hdisj n Hn), (elem_of_all_names l2 k' v').
Qed.

Lemma BindPrompts_lookup_at t l1 k v l2 st n :
  Context t = l1 ++ (k, v) :: l2 → NoDup (all_names (Context t)) →
  n ∈ k :: children v →
  (BindPrompts t st).1 !! n = (bindOver t [k] (bindOver t (keys l1) st)).1 !! n.
Proof.
  intros Hctx Hnd Hn. rewrite BindPrompts_bindOver, Hctx.
  unfold keys. rewrite fmap_app, fmap_cons. cbn [fst].
  rewrite bindOver_app, bindOver_cons. apply bindOver_frame.
  intros k' Hk'. by eapply written_later.
Qed.

Lemma bindOver_defaults t ks fm w :
  ShouldUseDefaults t = true →
  bindOver t ks (fm, w) = (foldl (λ fm k, handleBindDefaults t k fm) fm ks, w).
Proof.
  intros Hd. revert fm. induction ks as [|k ks IH]; intros fm; [done|].
  rewrite bindOver_cons. unfold bindOver at 2. cbn [foldl]. rewrite Hd. cbn [fst snd].
  by rewrite IH.
Qed.

End Binder.




(** C10: a binding built by [handleBindDefaults] for a declared default that
    is an empty list, top-level or Group child, panics when it is called
    ([val[0]] on an empty slice): no value and no error comes back. The
    second half states the same of the table [BindPrompts] builds in
    defaults-only mode from a context without repeated names. *)
Theorem empty_list_default_panics (t : dirTemplate) (parentKey : string)
    (fm : gmap string Binding) :
  (index (Context t) parentKey = VList [] →
     ∃ b, handleBindDefaults t parentKey fm !! parentKey = Some b ∧
          ∀ w, invoke b w = (Panic, w)) ∧
  (∀ childMap childKey,
     index (Context t) parentKey = VMap childMap →
     childKey ∈ keys childMap → index childMap childKey = VList [] →
     ∃ b, handleBindDefaults t parentKey fm !! childKey = Some b ∧
          ∀ w, invoke b w = (Panic, w)) ∧
  (ShouldUseDefaults t = true → NoDup (all_names (Context t)) →
   ∀ w0,
     ((parentKey, VList []) ∈ Context t →
        ∃ b, (BindPrompts t (fm, w0)).1 !! parentKey = Some b ∧
             ∀ w, invoke b w = (Panic, w)) ∧
     (∀ childMap childKey,
        (parentKey, VMap childMap) ∈ Context t → (childKey, VList []) ∈ childMap →
        ∃ b, (BindPrompts t (fm, w0)).1 !! childKey = Some b ∧
             ∀ w, invoke b w = (Panic, w))).
Proof.
  split; [|split].
  - intros Hidx. exists (BDefault (VList [])). split; [|done].
    by rewrite handleBindDefaults_lookup, Hidx, decide_True.
  - intros cm c Hidx Hc Hcv. exists (BDefault (VList [])). split; [|done].
    by rewrite handleBindDefaults_lookup, Hidx, decide_True, Hcv.
  - intros Hd Hnd w0. split.
    + intros Hin. pose proof Hin as (l1 & l2 & Hctx)%list_elem_of_split.
      exists (BDefault (VList [])). split; [|done].
      rewrite (BindPrompts_lookup_at t l1 parentKey (VList []) l2)
        by (try done; by apply elem_of_cons; left).
      rewrite (bindOver_defaults t (keys l1)), (bindOver_defaults t [parentKey]) by done.
      cbn [foldl fst]. rewrite handleBindDefaults_lookup.
      rewrite (index_elem_of _ parentKey (VList [])); [by rewrite decide_True| |done].
      by apply NoDup_all_names_keys.
    + intros cm c Hin Hc. pose proof Hin as (l1 & l2 & Hctx)%list_elem_of_split.
      assert (c ∈ keys cm) as Hck by (apply elem_of_keys; by eexists).
      exists (BDefault (VList [])). split; [|done].
      rewrite (BindPrompts_lookup_at t l1 parentKey (VMap cm) l2)
        by (try done; by apply elem_of_cons; right).
      rewrite (bindOver_defaults t (keys l1)), (bindOver_defaults t [parentKey]) by done.
      cbn [foldl fst]. rewrite handleBindDefaults_lookup.
      rewrite (index_elem_of _ parentKey (VMap cm)); [| by apply NoDup_all_names_keys|done].
      rewrite decide_True by done.
      by rewrite (index_elem_of cm c (VList [])) by eauto using NoDup_all_names_children.
Qed.

Lemma empty_list_default_panics_witness :
  (∃ b, handleBindDefaults (with_context [("tags", VList [])] true) "tags" ∅ !! "tags" = Some b ∧
        ∀ w, invoke b w = (Panic, w)) ∧
  (∃ b, handleBindDefaults (with_context [("g", VMap [("tags", VList [])])] true) "g" ∅
          !! "tags" = Some b ∧
        ∀ w, invoke b w = (Panic, w)).
Proof.
  split.
  - apply (empty_list_default_panics (with_context [("tags", VList [])] true) "tags" ∅).
    reflexivity.
  - apply (proj1 (proj2 (empty_list_default_panics
             (with_context [("g", VMap [("tags", VList [])])] true) "g" ∅))
             [("tags", VList [])] "tags").
    + reflexivity.
    + apply (bool_decide_unpack _). vm_compute. exact I.
    + reflexivity.
Defined.

(** C2: in interactive mode, for the Group [net] with the list child [proto]
    and the scalar child [port]. Calling a child first evaluates the gate
    (cell 0 asks). When the user answers the gate with [true], the child is
    resolved by its own prompt (cell 1 asks). When the user answers [false],
    no child prompt asks and the child gets the declared value as it stands
    (line 273, [return val]): right for the scalar, but for the list it is
    the whole list, while its declared default is the first element. *)
Theorem gated_child_returns_whole_list :
  (∃ b, (BindPrompts (with_context net_context false) (∅, fresh [VBool true; VStr "udp"])).1
          !! "proto" = Some b ∧
        (invoke b (BindPrompts (with_context net_context false)
                     (∅, fresh [VBool true; VStr "udp"])).2).1 = Ret (VStr "udp") ∧
        asked (invoke b (BindPrompts (with_context net_context false)
                     (∅, fresh [VBool true; VStr "udp"])).2).2 = [0; 1]) ∧
  (∃ b, (BindPrompts (with_context net_context false) (∅, fresh [VBool false])).1
          !! "port" = Some b ∧
        (invoke b (BindPrompts (with_context net_context false)
                     (∅, fresh [VBool false])).2).1 = Ret (VStr "80") ∧
        asked (invoke b (BindPrompts (with_context net_context false)
                     (∅, fresh [VBool false])).2).2 = [0]) ∧
  (∃ b, (BindPrompts (with_context net_context false) (∅, fresh [VBool false])).1
          !! "proto" = Some b ∧
        (invoke b (BindPrompts (with_context net_context false)
                     (∅, fresh [VBool false])).2).1 = Ret (VList [VStr "tcp"; VStr "udp"]) ∧
        asked (invoke b (BindPrompts (with_context net_context false)
                     (∅, fresh [VBool false])).2).2 = [0] ∧
        declared_default (VList [VStr "tcp"; VStr "udp"]) (VStr "tcp")).
Proof.
  split; [|split].
  - eexists. split; [vm_compute; reflexivity|]. split; vm_compute; reflexivity.
  - eexists. split; [vm_compute; reflexivity|]. split; vm_compute; reflexivity.
  - eexists. split; [vm_compute; reflexivity|]. split; [vm_compute; reflexivity|].
    split; [vm_compute; reflexivity|constructor].
Qed.

(** * Properties of prompts and of calling bindings *)

Section Worlds.
Implicit Types (fm : gmap string Binding) (w : World) (p : Prompt) (b : Binding).

Lemma extends_refl w : extends w w.
Proof. by split; [|split]. Qed.

Lemma extends_trans w1 w2 w3 : extends w1 w2 → extends w2 w3 → extends w1 w3.
Proof.
  intros (Hc1 & Hp1 & Ha1) (Hc2 & Hp2 & Ha2). split; [by etrans|]. split; [|by etrans].
  intros Hp. destruct (Hp1 Hp) as [Hp' Hc']. destruct (Hp2 Hp') as [Hp'' Hc''].
  split; [done|congruence].
Qed.

Lemma callPrompt_extends p w : extends w (callPrompt p w).2.
Proof.
  unfold callPrompt. destruct (cache w !! cell p) eqn:Hc; [apply extends_refl|].
  destruct (pending w) eqn:Hp; cbn.
  - split; [reflexivity|]. split; [by intros; split|]. by apply prefix_app_r.
  - split; [by apply insert_subseteq|]. split; [intros; congruence|].
    by apply prefix_app_r.
Qed.

Lemma callPrompt_Ret p w v w' :
  callPrompt p w = (Ret v, w') → cache w' !! cell p = Some v.
Proof.
  unfold callPrompt. destruct (cache w !! cell p) eqn:Hc.
  - by intros [= <- <-].
  - destruct (pending w); intros [= <- <-]. cbn. by rewrite lookup_insert_eq.
Qed.

Lemma callPrompt_filled p w v : cache w !! cell p = Some v → callPrompt p w = (Ret v, w).
Proof. unfold callPrompt. by intros ->. Qed.

Lemma callPrompt_never_panics p w : (callPrompt p w).1 ≠ Panic.
Proof.
  unfold callPrompt. destruct (cache w !! cell p); [done|]. by destruct (pending w).
Qed.

Lemma callPrompt_Abort p w w' :
  callPrompt p w = (Abort, w') →
  cache w' !! cell p = None ∧ pending w' = [].
Proof.
  unfold callPrompt. destruct (cache w !! cell p) eqn:Hc; [done|].
  destruct (pending w); by intros [= <-].
Qed.

Lemma callPrompt_stable p w r w1 w2 :
  callPrompt p w = (r, w1) → extends w1 w2 → (callPrompt p w2).1 = r.
Proof.
  intros Hcall (Hc & Hp & _). destruct r as [v| |].
  - apply callPrompt_Ret in Hcall.
    rewrite (callPrompt_filled p w2 v); [done|]. by eapply lookup_weaken.
  - by destruct (callPrompt_never_panics p w); rewrite Hcall.
  - apply callPrompt_Abort in Hcall as [Hnone Hpend].
    destruct (Hp Hpend) as [Hp2 Hc2]. unfold callPrompt.
    by rewrite Hc2, Hnone, Hp2.
Qed.

Lemma invoke_extends b w : extends w (invoke b w).2.
Proof.
  destruct b as [|v|p|a|a v p]; cbn.
  - apply extends_refl.
  - destruct v as [| | | |[|]|]; apply extends_refl.
  - apply callPrompt_extends.
  - apply callPrompt_extends.
  - pose proof (callPrompt_extends a w) as Ha.
    destruct (callPrompt a w) as [[[| [|] | | | |]| |] w']; try done.
    eapply extends_trans; [exact Ha|]. apply callPrompt_extends.
Qed.

Lemma call_extends fm name w : extends w (call fm name w).
Proof.
  unfold call. destruct (fm !! name); [apply invoke_extends|apply extends_refl].
Qed.

Lemma calls_extends fm names w : extends w (calls fm names w).
Proof.
  revert w. induction names as [|n names IH]; intros w; [apply extends_refl|].
  cbn. eapply extends_trans; [apply call_extends|apply IH].
Qed.

(** Calling a binding again, after any further calls, gives the same result. *)
Lemma invoke_stable b w r w1 w2 :
  invoke b w = (r, w1) → extends w1 w2 → (invoke b w2).1 = r.
Proof.
  destruct b as [|v|p|a|a v p]; cbn.
  - by intros [= <- <-].
  - by destruct v as [| | | |[|]|]; intros [= <- <-].
  - apply callPrompt_stable.
  - apply callPrompt_stable.
  - destruct (callPrompt a w) as [ra wa] eqn:Ha. intros Hr Hext.
    assert (extends wa w2) as Hext_a.
    { destruct ra as [[| [|] | | | |]| |]; try (injection Hr as <- <-; done).
      eapply extends_trans; [|exact Hext].
      pose proof (callPrompt_extends p wa) as Hp. by rewrite Hr in Hp. }
    pose proof (callPrompt_stable a w ra wa w2 Ha Hext_a) as Hstab.
    destruct ra as [va| |].
    + pose proof (callPrompt_Ret _ _ _ _ Ha) as Hfill.
      rewrite (callPrompt_filled a w2 va) by (destruct Hext_a as [? _]; by eapply lookup_weaken).
      destruct va as [| [|] | | | |]; try by injection Hr as <- <-.
      eapply callPrompt_stable; done.
    + by destruct (callPrompt_never_panics a w); rewrite Ha.
    + injection Hr as <- <-.
      destruct (callPrompt a w2) as [ra2 wa2]. cbn in Hstab. by subst ra2.
Qed.
End Worlds.

Section InteractiveBinder.
Implicit Types (t : dirTemplate) (fm : gmap string Binding) (w : World).
Implicit Types (k c n : string) (roles : gmap nat Role).


Lemma handleBindPrompts_lookup t k fm w n :
  match index (Context t) k with
  | VMap cm =>
      ((n ∈ keys cm) ∧
       (∃ p, (handleBindPrompts t k (fm, w)).1 !! n
             = Some (BChild (gate_of k w) (index cm n) p))) ∨
      ((n ∉ keys cm) ∧
       (handleBindPrompts t k (fm, w)).1 !! n
       = (if decide (k = n ∧ cm ≠ []) then Some (BGate (gate_of k w)) else fm !! n))
  | v =>
      (handleBindPrompts t k (fm, w)).1 !! n
      = if decide (k = n)
        then Some (BPrompt {| cell := next w; field := k; defval := v |})
        else fm !! n
  end.
Proof.
  unfold handleBindPrompts.
  destruct (index (Context t) k) as [| | | | |cm] eqn:E; cbn [prompt_New fst];
    try by rewrite lookup_insert.
  match goal with |- context [foldl ?f (?a, ?b) ?l] =>
    destruct (handleBindPrompts_children t (gate_of k w) cm (keys cm) a b n)
      as [[[Hl Hnin]|(p & Hl & Hin & _)] _] end.
  - right. split; [done|]. etrans; [exact Hl|].
    destruct (decide (0 < length cm)) as [Hlen|Hlen].
    + rewrite lookup_insert. destruct (decide (k = n)) as [->|].
      * rewrite decide_True; [done|]. split; [done|]. intros ->. cbn in Hlen. lia.
      * rewrite decide_False; [done|]. by intros [? _].
    + rewrite decide_False; [done|]. intros [_ Hne]. destruct cm; [done|].
      cbn in Hlen. lia.
  - left. split; [done|]. by exists p.
Qed.

Lemma handleBindPrompts_world t k fm w :
  cache (handleBindPrompts t k (fm, w)).2 = cache w ∧
  asked (handleBindPrompts t k (fm, w)).2 = asked w ∧
  pending (handleBindPrompts t k (fm, w)).2 = pending w.
Proof.
  unfold handleBindPrompts.
  destruct (index (Context t) k) as [| | | | |cm] eqn:E; cbn [prompt_New snd]; try done.
  match goal with |- context [foldl ?f (?a, ?b) ?l] =>
    destruct (handleBindPrompts_children t (gate_of k w) cm (keys cm) a b k)
      as (_ & Hc & Ha & Hp & _) end.
  done.
Qed.

Lemma bindOver_world t ks st :
  cache (bindOver t ks st).2 = cache st.2 ∧
  asked (bindOver t ks st).2 = asked st.2 ∧
  pending (bindOver t ks st).2 = pending st.2.
Proof.
  revert st. induction ks as [|k ks IH]; intros st; [done|].
  rewrite bindOver_cons. destruct (IH (bindOver t [k] st)) as (-> & -> & ->).
  unfold bindOver. cbn [foldl]. destruct (ShouldUseDefaults t); [done|].
  destruct st as [fm w]. apply handleBindPrompts_world.
Qed.

(** *** Every declared name is bound *)


Lemma bindOver_one_bound t k st n :
  n ∈ bound_by t k ∨ is_Some (st.1 !! n) → is_Some ((bindOver t [k] st).1 !! n).
Proof.
  unfold bound_by, bindOver. cbn [foldl]. destruct st as [fm w]. cbn [fst snd].
  destruct (ShouldUseDefaults t); cbn [fst].
  - rewrite handleBindDefaults_lookup.
    destruct (index (Context t) k) as [| | | | |cm];
      try (intros [->%list_elem_of_singleton|?];
           [by rewrite decide_True|by case_decide]).
    rewrite elem_of_app. intros [[Hk|Hc]|Hs].
    + case_decide; [by apply elem_of_nil in Hk|].
      apply list_elem_of_singleton in Hk as ->.
      destruct (decide (k ∈ keys cm)); [done|]. by rewrite decide_True.
    + by rewrite decide_True.
    + by repeat case_decide.
  - pose proof (handleBindPrompts_lookup t k fm w n) as Hl.
    destruct (index (Context t) k) as [| | | | |cm];
      try (rewrite Hl; intros [->%list_elem_of_singleton|?];
           [by rewrite decide_True|by case_decide]).
    destruct Hl as [[_ [p ->]]|[Hnin ->]]; [done|].
    rewrite elem_of_app. intros [[Hk|Hc]|Hs]; [|done|by case_decide].
    case_decide; [by apply elem_of_nil in Hk|].
    apply list_elem_of_singleton in Hk as ->. by rewrite decide_True.
Qed.

Lemma bindOver_bound t ks st n :
  (∃ k, k ∈ ks ∧ n ∈ bound_by t k) ∨ is_Some (st.1 !! n) →
  is_Some ((bindOver t ks st).1 !! n).
Proof.
  revert st. induction ks as [|k ks IH]; intros st.
  - intros [(k & []%elem_of_nil & _)|?]. done.
  - rewrite bindOver_cons. intros [(k' & [->|Hk']%elem_of_cons & Hn)|Hs].
    + apply IH. right. apply bindOver_one_bound. by left.
    + apply IH. left. by exists k'.
    + apply IH. right. apply bindOver_one_bound. by right.
Qed.

(** *** Memo cells have one role each *)

Lemma role_ok_mono roles roles' b : roles ⊆ roles' → role_ok roles b → role_ok roles' b.
Proof.
  intros Hsub. destruct b; cbn; try done.
  - intros ?. by eapply lookup_weaken.
  - intros ?. by eapply lookup_weaken.
  - intros [??]. split; by eapply lookup_weaken.
Qed.

Lemma wf_table_fresh fm roles (i : nat) : wf_table fm roles i → roles !! i = None.
Proof.
  intros [Hdom _]. destruct (roles !! i) as [r|] eqn:E; [|done].
  apply Hdom in E. lia.
Qed.

Lemma wf_table_alloc fm roles (i : nat) name b r :
  wf_table fm roles i → role_ok (<[i := r]> roles) b →
  wf_table (<[name := b]> fm) (<[i := r]> roles) (S i).
Proof.
  intros Hwf Hb. pose proof (wf_table_fresh _ _ _ Hwf) as Hfresh.
  destruct Hwf as [Hdom Hok]. split.
  - intros c r'. rewrite lookup_insert. case_decide; [intros _; lia|].
    intros ?%Hdom. lia.
  - intros name' b'. rewrite lookup_insert. case_decide.
    + by intros [= <-].
    + intros ?%Hok. eapply role_ok_mono; [|done]. by apply insert_subseteq.
Qed.

Lemma child_loop_wf (adv : Prompt) (cm : GoMap) ks fm w roles :
  wf_table fm roles (next w) → roles !! cell adv = Some RGate →
  ∃ roles',
    wf_table (foldl (λ '(fm, w) c,
                 let '(p, w') := prompt_New c (index cm c) w in
                 (<[c := BChild adv (index cm c) p]> fm, w')) (fm, w) ks).1
             roles'
             (next (foldl (λ '(fm, w) c,
                 let '(p, w') := prompt_New c (index cm c) w in
                 (<[c := BChild adv (index cm c) p]> fm, w')) (fm, w) ks).2).
Proof.
  revert fm w roles. induction ks as [|c ks IH]; intros fm w roles Hwf Hadv.
  - by exists roles.
  - cbn [foldl prompt_New]. apply (IH _ _ (<[next w := RChild (cell adv)]> roles)).
    + cbn [next]. apply wf_table_alloc; [done|]. cbn.
      rewrite lookup_insert_eq. split; [|done].
      rewrite lookup_insert_ne; [done|]. destruct Hwf as [Hdom _].
      apply Hdom in Hadv. lia.
    + rewrite lookup_insert_ne; [done|]. destruct Hwf as [Hdom _].
      apply Hdom in Hadv. lia.
Qed.

Lemma handleBindPrompts_wf t k fm w roles :
  wf_table fm roles (next w) →
  ∃ roles', wf_table (handleBindPrompts t k (fm, w)).1 roles'
                     (next (handleBindPrompts t k (fm, w)).2).
Proof.
  intros Hwf. unfold handleBindPrompts.
  destruct (index (Context t) k) as [| | | | |cm] eqn:E; cbn [prompt_New fst snd next];
    try (exists (<[next w := RTop]> roles); apply wf_table_alloc; [done|];
         cbn; by rewrite lookup_insert_eq).
  apply (child_loop_wf _ _ _ _ _ (<[next w := RGate]> roles)).
  - cbn [next]. case_decide.
    + apply wf_table_alloc; [done|]. cbn. by rewrite lookup_insert_eq.
    + pose proof (wf_table_fresh _ _ _ Hwf) as Hfresh. destruct Hwf as [Hdom Hok]. split.
      * intros c r. rewrite lookup_insert. case_decide; [intros _; lia|].
        intros ?%Hdom. lia.
      * intros name b ?%Hok. eapply role_ok_mono; [|done]. by apply insert_subseteq.
  - cbn. by rewrite lookup_insert_eq.
Qed.

Lemma bindOver_wf t ks st roles :
  ShouldUseDefaults t = false →
  wf_table st.1 roles (next st.2) →
  ∃ roles', wf_table (bindOver t ks st).1 roles' (next (bindOver t ks st).2).
Proof.
  intros Hi. revert st roles. induction ks as [|k ks IH]; intros st roles Hwf.
  - by exists roles.
  - rewrite bindOver_cons.
    assert (bindOver t [k] st = handleBindPrompts t k st) as ->.
    { unfold bindOver. cbn [foldl]. by rewrite Hi. }
    destruct st as [fm w]. destruct (handleBindPrompts_wf t k fm w roles Hwf) as [roles' Hwf'].
    by apply (IH _ roles').
Qed.
End InteractiveBinder.

Section Render.
Implicit Types (t : dirTemplate) (fm : gmap string Binding) (w : World).
Implicit Types (roles : gmap nat Role) (b : Binding) (p : Prompt).

Lemma callPrompt_asked p w c :
  c ∈ asked (callPrompt p w).2 → c ∈ asked w ∨ c = cell p.
Proof.
  unfold callPrompt. destruct (cache w !! cell p); [by left|].
  destruct (pending w); cbn; rewrite elem_of_app, list_elem_of_singleton; tauto.
Qed.

Lemma extends_cache w w' c v : extends w w' → cache w !! c = Some v → cache w' !! c = Some v.
Proof. intros [Hsub _] ?. by eapply lookup_weaken. Qed.

Lemma invoke_gated roles b w : role_ok roles b → gated roles w → gated roles (invoke b w).2.
Proof.
  intros Hok Hg c g Hrole Hasked.
  assert (c ∈ asked w → cache (invoke b w).2 !! g = Some (VBool true)) as Hold.
  { intros ?. eapply extends_cache; [apply invoke_extends|]. by eapply Hg. }
  destruct b as [|v|p|a|a v p]; cbn in Hok, Hasked.
  - by apply Hold.
  - apply Hold. by destruct v as [| | | |[|]|].
  - apply callPrompt_asked in Hasked as [?| ->]; [by apply Hold|congruence].
  - apply callPrompt_asked in Hasked as [?| ->]; [by apply Hold|congruence].
  - destruct Hok as [Hgate Hchild]. cbn in Hold |- *.
    destruct (callPrompt a w) as [ra wa] eqn:Ha.
    assert (c ∈ asked wa → c ∈ asked w) as Hwa.
    { intros Hc. pose proof (callPrompt_asked a w c) as Hq. rewrite Ha in Hq.
      destruct (Hq Hc) as [?| ->]; [done|congruence]. }
    destruct ra as [[| [|] | | | |]| |]; cbn in Hasked, Hold |- *; try by apply Hold, Hwa.
    apply callPrompt_asked in Hasked as [?| ->]; [by apply Hold, Hwa|].
    rewrite Hchild in Hrole. injection Hrole as <-.
    eapply extends_cache; [apply callPrompt_extends|]. by eapply callPrompt_Ret.
Qed.

Lemma calls_gated roles fm names w n :
  wf_table fm roles n → gated roles w → gated roles (calls fm names w).
Proof.
  intros [_ Hok]. revert w. induction names as [|name names IH]; intros w Hg; [done|].
  cbn. apply IH. unfold call. destruct (fm !! name) as [b|] eqn:Hb; [|done].
  apply invoke_gated; [by eapply Hok|done].
Qed.
End Render.

(** C8 (as amended): every top-level key of the context, unless its value
    is a Group with no child, and every child key of a Group has exactly
    one binding in the table; and calling a binding of the table again,
    after any further calls of bindings of the table, returns what it
    returned before, for prompt-backed bindings too. *)
Theorem bindings_unique_and_stable (t : dirTemplate) (st : gmap string Binding * World) :
  (∀ k, k ∈ keys (Context t) → index (Context t) k ≠ VMap [] →
     ∃ b, (BindPrompts t st).1 !! k = Some b ∧
          ∀ b', (BindPrompts t st).1 !! k = Some b' → b' = b) ∧
  (∀ k cm c, k ∈ keys (Context t) → index (Context t) k = VMap cm → c ∈ keys cm →
     ∃ b, (BindPrompts t st).1 !! c = Some b ∧
          ∀ b', (BindPrompts t st).1 !! c = Some b' → b' = b) ∧
  (∀ n b w r w1 names,
     (BindPrompts t st).1 !! n = Some b → invoke b w = (r, w1) →
     (invoke b (calls (BindPrompts t st).1 names w1)).1 = r).
Proof.
  assert (∀ n, is_Some ((BindPrompts t st).1 !! n) →
               ∃ b, (BindPrompts t st).1 !! n = Some b ∧
          ∀ b', (BindPrompts t st).1 !! n = Some b' → b' = b) as Huniq.
  { intros n [b Hb]. exists b. split; [done|]. intros b' Hb'. congruence. }
  split; [|split].
  - intros k Hk Hne. apply Huniq. rewrite BindPrompts_bindOver. apply bindOver_bound.
    left. exists k. split; [done|]. unfold bound_by.
    destruct (index (Context t) k) as [| | | | |cm]; try by apply list_elem_of_singleton.
    apply elem_of_app. left. rewrite decide_False by congruence.
    by apply list_elem_of_singleton.
  - intros k cm c Hk Hidx Hc. apply Huniq. rewrite BindPrompts_bindOver.
    apply bindOver_bound. left. exists k. split; [done|]. unfold bound_by.
    rewrite Hidx. apply elem_of_app. by right.
  - intros n b w r w1 names _ Hinv. eapply invoke_stable; [exact Hinv|].
    apply calls_extends.
Qed.

Lemma bindings_unique_and_stable_witness :
  (∃ b, (BindPrompts sample_interactive (∅, fresh [])).1 !! "server" = Some b ∧
     ∀ b', (BindPrompts sample_interactive (∅, fresh [])).1 !! "server" = Some b' → b' = b) ∧
  (∃ b, (BindPrompts sample_interactive (∅, fresh [])).1 !! "proto" = Some b ∧
     ∀ b', (BindPrompts sample_interactive (∅, fresh [])).1 !! "proto" = Some b' → b' = b) ∧
  (invoke (BPrompt {| cell := 0; field := "name"; defval := VStr "World" |})
     (calls (BindPrompts sample_interactive (∅, fresh [])).1 ["license"; "name"; "port"]
        {| cache := {[ 0 := VStr "Ada" ]}; next := 4; asked := [0];
           pending := [VStr "MIT"; VBool true; VStr "9090"] |})).1 = Ret (VStr "Ada").
Proof.
  pose proof (bindings_unique_and_stable sample_interactive (∅, fresh [])) as (H1 & H2 & H3).
  split; [|split].
  - apply H1; [|vm_compute; discriminate].
    apply (bool_decide_unpack _). vm_compute. exact I.
  - apply (H2 "server" [("port", VStr "8080"); ("proto", VList [VStr "tcp"; VStr "udp"])]).
    + apply (bool_decide_unpack _). vm_compute. exact I.
    + reflexivity.
    + apply (bool_decide_unpack _). vm_compute. exact I.
  - apply (H3 "name" _ {| cache := ∅; next := 4; asked := []; pending := [VStr "Ada"; VStr "MIT"; VBool true; VStr "9090"] |}).
    + vm_compute. reflexivity.
    + vm_compute. reflexivity.
Defined.

(** C8, as stated, fails: the key of a Group with no child is a top-level
    key, and neither mode binds it ([len(childMap) > 0], lines 220 and 256). *)
Lemma empty_group_key_unbound :
  ¬ every_name_bound [("extras", VMap [])]
      (BindPrompts (with_context [("extras", VMap [])] true) (∅, fresh [])).1 ∧
  ¬ every_name_bound [("extras", VMap [])]
      (BindPrompts (with_context [("extras", VMap [])] false) (∅, fresh [])).1.
Proof.
  split; intros H; destruct (H "extras") as [b Hb];
    try (apply elem_of_cons; by left); vm_compute in Hb; discriminate.
Qed.

(** * Properties of templates without expressions, and of paths *)

Section PlainText.
Implicit Types (s c : string) (fm : gmap string Binding) (w : World).




Lemma split_slash_name c : has_slash c = false → split_slash c = [c].
Proof.
  induction c as [|a c IH]; [done|].
  cbn [has_slash]. intros [Ha Hc]%orb_false_elim.
  cbn [split_slash]. by rewrite Ha, (IH Hc).
Qed.


Lemma Join_names (dir cs : list string) :
  Forall file_name cs →
  foldl (λ acc c,
           if bool_decide (c = "" ∨ c = ".") then acc
           else if bool_decide (c = "..") then removelast acc
           else acc ++ [c]) dir cs = dir ++ cs.
Proof.
  revert dir. induction cs as [|c cs IH]; intros dir.
  - by rewrite app_nil_r.
  - intros [(H1 & H2 & H3 & _) Hcs]%Forall_cons. cbn [foldl].
    rewrite bool_decide_eq_false_2 by (by intros [?|?]).
    rewrite bool_decide_eq_false_2 by done.
    rewrite IH by done. by rewrite <- app_assoc.
Qed.

End PlainText.

(** * Properties of the file system *)

Section FileSystem.
Implicit Types (p : list string) (c : string) (d n : FNode) (o : option FNode).
Implicit Types (f : option FNode → Errno + option FNode) (E es : gmap string FNode).

Lemma lookup_entry p d :
  lookup_path p d =
  match entry p d with
  | inl e => inl e
  | inr None => inl ENOENT
  | inr (Some n) => inr n
  end.
Proof.
  revert d. induction p as [|c p IH]; intros d; [done|].
  destruct d as [m s|es]; [done|]. cbn [lookup_path entry].
  destruct p as [|c' p'].
  - by destruct (es !! c).
  - destruct (es !! c) as [n'|]; [apply IH|done].
Qed.

Lemma update_entry p f d o :
  p ≠ [] → entry p d = inr o →
  update p f d = match f o with
                 | inl e => inl e
                 | inr o' => inr (place p o' d)
                 end.
Proof.
  revert d. induction p as [|c p IH]; intros d Hp; [done|].
  destruct d as [m s|es]; [done|]. cbn [update entry]. destruct p as [|c' p'].
  - intros [= <-]. by destruct (f (es !! c)) as [e|[n'|]].
  - destruct (es !! c) as [n'|] eqn:Hc; [|done]. intros He.
    rewrite (IH n') by done.
    destruct (f o) as [e|[n''|]]; [done| |]; cbn [place put del]; by rewrite Hc.
Qed.

Lemma update_entry_err p f d e : p ≠ [] → entry p d = inl e → update p f d = inl e.
Proof.
  revert d. induction p as [|c p IH]; intros d Hp; [done|].
  destruct d as [m s|es]; [by intros [= <-]|]. cbn [update entry].
  destruct p as [|c' p']; [done|].
  destruct (es !! c) as [n'|] eqn:Hc; [|by intros [= <-]]. intros He.
  by rewrite (IH n').
Qed.

Lemma entry_place p o o' d : p ≠ [] → entry p d = inr o → entry p (place p o' d) = inr o'.
Proof.
  revert d. induction p as [|c p IH]; intros d Hp; [done|].
  destruct d as [m s|es]; [done|]. destruct p as [|c' p'].
  - intros _. destruct o' as [n'|]; cbn.
    + by rewrite lookup_insert_eq.
    + by rewrite lookup_delete_eq.
  - cbn [entry]. destruct (es !! c) as [n'|] eqn:Hc; [|done]. intros He.
    specialize (IH n' ltac:(done) He).
    destruct o' as [n''|]; cbn [place put del] in *; rewrite Hc; cbn [entry];
      by rewrite lookup_insert_eq.
Qed.

Lemma place_place p o o1 o2 d :
  p ≠ [] → entry p d = inr o → place p o2 (place p o1 d) = place p o2 d.
Proof.
  revert d. induction p as [|c p IH]; intros d Hp; [done|].
  destruct d as [m s|es]; [done|]. destruct p as [|c' p'].
  - intros _. destruct o1, o2; cbn;
      by rewrite ?insert_insert_eq, ?delete_insert_eq, ?insert_delete_eq, ?delete_delete_eq.
  - cbn [entry]. destruct (es !! c) as [n'|] eqn:Hc; [|done]. intros He.
    specialize (IH n' ltac:(done) He).
    destruct o1, o2; cbn [place put del] in *; rewrite Hc; cbn [put del];
      rewrite lookup_insert_eq, insert_insert_eq; by rewrite IH.
Qed.

Lemma place_id p o d : p ≠ [] → entry p d = inr o → place p o d = d.
Proof.
  revert d. induction p as [|c p IH]; intros d Hp; [done|].
  destruct d as [m s|es]; [by destruct o|]. destruct p as [|c' p'].
  - intros [= <-]. destruct (es !! c) eqn:Hc; cbn.
    + by rewrite insert_id.
    + by rewrite delete_id.
  - cbn [entry]. destruct (es !! c) as [n'|] eqn:Hc; [|done]. intros He.
    specialize (IH n' ltac:(done) He).
    destruct o; cbn [place put del] in *; rewrite Hc, IH; by rewrite insert_id.
Qed.



Lemma entry_put p n d o : entry p d = inr o → entry p (put p n d) = inr (Some n).
Proof.
  destruct p as [|c p]; [done|]. intros He.
  by apply (entry_place (c :: p) o (Some n)).
Qed.



End FileSystem.

(** * Properties of the renderer *)

Section Operations.
Implicit Types (p : list string) (d n : FNode) (o : option FNode).


Lemma Remove_entry p d o :
  p ≠ [] → entry p d = inr o →
  Remove p d = match o with
               | None => inl ENOENT
               | Some (File _ _) => inr (del p d)
               | Some (Dir es) =>
                   if decide (dom es = ∅) then inr (del p d) else inl ENOTEMPTY
               end.
Proof.
  intros Hp He. unfold Remove. rewrite (update_entry _ _ _ o) by done.
  destruct o as [[m s|es]|]; try done. by case_decide.
Qed.

Lemma OpenFile_entry p perm d o :
  p ≠ [] → entry p d = inr o →
  OpenFile p perm d = match o with
                      | None => inr (put p (File perm "") d)
                      | Some (File m _) => inr (put p (File m "") d)
                      | Some (Dir _) => inl EISDIR
                      end.
Proof.
  intros Hp He. unfold OpenFile. rewrite (update_entry _ _ _ o) by done.
  by destruct o as [[m s|es]|].
Qed.


Lemma prune_entry p d m s :
  p ≠ [] → entry p d = inr (Some (File m s)) →
  prune p d = if isOnlyWhitespace s then del p d else d.
Proof.
  intros Hp He. unfold prune, ReadFile. rewrite lookup_entry, He.
  destruct (isOnlyWhitespace s); [|done].
  by rewrite (Remove_entry p d (Some (File m s))).
Qed.

Lemma lookup_place p o o' d :
  p ≠ [] → entry p d = inr o →
  lookup_path p (place p o' d) = match o' with Some n => inr n | None => inl ENOENT end.
Proof. intros Hp He. by rewrite lookup_entry, (entry_place p o o'). Qed.
End Operations.

Section Visit.
Implicit Types (st : State) (rel dirPrefix : list string).

End Visit.

Section Walk.
Implicit Types (st : State) (rel dirPrefix : list string) (n : SrcNode).
Implicit Types (es : list (string * SrcNode)) (E : gmap string FNode).

Lemma walk_SDir mk dirPrefix rel es st :
  walk mk dirPrefix rel (SDir es) st =
  match visit mk dirPrefix rel (inl tt) st with
  | (Done, st1) => walkEntries mk dirPrefix rel es st1
  | r => r
  end.
Proof.
  cbn [walk]. destruct (visit mk dirPrefix rel (inl tt) st) as [[] st1]; try done.
  revert st1. induction es as [|[name child] es IH]; intros st1; [done|].
  cbn [walkEntries].
  destruct (walk mk dirPrefix (rel ++ [name]) child st1) as [[] st2]; done.
Qed.




Lemma no_expressions_plain rel n : no_expressions rel n → plain (Rel rel) = true.
Proof. destruct n; by intros [? _]. Qed.


End Walk.

Section PlainTree.
Implicit Types (st : State) (rel dirPrefix : list string) (n : SrcNode).
Implicit Types (es : list (string * SrcNode)) (E : gmap string FNode).






End PlainTree.


Section RenderCalls.
Implicit Types (st : State) (fm : gmap string Binding) (w : World).

(** Whatever a render does to the world, it does by calling bindings of
    the function map. *)
Lemma calls_app fm names1 names2 w :
  calls fm (names1 ++ names2) w = calls fm names2 (calls fm names1 w).
Proof. apply foldl_app. Qed.

Lemma exec_calls mk fm ns : ∀ w out,
  ∃ names, (exec mk fm ns w out).2 = calls fm names w.
Proof.
  induction ns as [|[s|name|name] ns IH]; intros w out; cbn [exec].
  - by exists [].
  - apply IH.
  - destruct mk; [apply IH|apply IH|by exists []].
  - destruct (fm !! name) as [b|] eqn:Hb; [|by exists []].
    assert (call fm name w = (invoke b w).2) as Hcall by (unfold call; by rewrite Hb).
    destruct (invoke b w) as [[v| |] w'] eqn:Hinv; cbn [snd] in Hcall; subst w';
      try (exists [name]; done).
    destruct v as [|bb|f|s|l|m]; try (exists [name]; done).
    + destruct (IH (call fm name w) (out +:+ (if bb then "true" else "false")))
        as [names Hn]. exists (name :: names). by rewrite Hn.
    + destruct (IH (call fm name w) (out +:+ s)) as [names Hn].
      exists (name :: names). by rewrite Hn.
Qed.

Lemma render_calls mk fm s w : ∃ names, (render mk fm s w).2 = calls fm names w.
Proof.
  unfold render. destruct (Parse fm s); [apply exec_calls|by exists []|by exists []].
Qed.

Lemma visit_calls mk dirPrefix rel info st :
  funcs (visit mk dirPrefix rel info st).2 = funcs st ∧
  ∃ names, world (visit mk dirPrefix rel info st).2 = calls (funcs st) names (world st).
Proof.
  unfold visit. destruct (render_calls mk (funcs st) (Rel rel) (world st)) as [names1 H1].
  destruct (render mk (funcs st) (Rel rel) (world st)) as [[r newName] w1].
  cbn [snd] in H1. subst w1.
  destruct r; try (split; [done|by exists names1]).
  cbn [set_world set_disk funcs world disk].
  repeat match goal with
  | |- context [exec ?mk ?fm ?ns ?w ?o] =>
      let names2 := fresh "names2" in
      let H2 := fresh "H2" in
      destruct (exec_calls mk fm ns w o) as [names2 H2];
      destruct (exec mk fm ns w o) as [[? ?] ?]; cbn [snd] in H2; subst
  | |- context [match ?x with _ => _ end] => destruct x
  end; cbn [snd funcs world];
    first [ by split; [|exists names1]
          | split; [done|]; exists (names1 ++ names2); by rewrite calls_app ].
Qed.

Lemma walk_calls mk dirPrefix n : ∀ rel st,
  funcs (walk mk dirPrefix rel n st).2 = funcs st ∧
  ∃ names, world (walk mk dirPrefix rel n st).2 = calls (funcs st) names (world st).
Proof.
  induction n as [mode data|es IH] using SrcNode_entries_ind; intros rel st.
  - apply visit_calls.
  - rewrite walk_SDir.
    destruct (visit_calls mk dirPrefix rel (inl tt) st) as [Hf [names0 Hw]].
    destruct (visit mk dirPrefix rel (inl tt) st) as [r st1]. cbn [snd] in Hf, Hw.
    destruct r; try (split; [done|by exists names0]).
    assert (∀ st1,
      funcs (walkEntries mk dirPrefix rel es st1).2 = funcs st1 ∧
      ∃ names, world (walkEntries mk dirPrefix rel es st1).2
               = calls (funcs st1) names (world st1)) as Hes.
    { clear st st1 Hf Hw names0.
      induction es as [|[name child] es IHes]; intros st1.
      - split; [done|by exists []].
      - apply Forall_cons in IH as [Hchild IH]. cbn [snd] in Hchild.
        cbn [walkEntries].
        destruct (Hchild (rel ++ [name]) st1) as [Hf [names1 Hw]].
        destruct (walk mk dirPrefix (rel ++ [name]) child st1) as [r st2].
        cbn [snd] in Hf, Hw.
        destruct r; try (split; [done|by exists names1]).
        destruct (IHes IH st2) as [Hf2 [names2 Hw2]]. rewrite Hf2, Hw2, Hf, Hw.
        split; [done|]. exists (names1 ++ names2). by rewrite calls_app. }
    destruct (Hes st1) as [Hf1 [names1 Hw1]]. rewrite Hf1, Hw1, Hf, Hw.
    split; [done|]. exists (names0 ++ names1). by rewrite calls_app.
Qed.

Lemma Execute_calls mk t src dirPrefix st :
  funcs (Execute mk t src dirPrefix st).2 = (BindPrompts t (funcs st, world st)).1 ∧
  ∃ names,
    world (Execute mk t src dirPrefix st).2
    = calls (BindPrompts t (funcs st, world st)).1 names
            (BindPrompts t (funcs st, world st)).2.
Proof.
  unfold Execute. destruct (BindPrompts t (funcs st, world st)) as [fm w].
  destruct src as [e|n]; [split; [done|by exists []]|].
  apply (walk_calls mk dirPrefix n [] {| funcs := fm; world := w; disk := disk st |}).
Qed.
End RenderCalls.



Section Pruner.
End Pruner.





(** C9: loading a template. When nothing is at the place of the context
    file while the template root exists, [Get] succeeds with an empty
    context, and binding that context leaves the function map as it was (the
    render goes on with no variables). When the context file is there and
    [json.Unmarshal] rejects its content, [Get] returns that error and no
    template at all, so that nothing can be rendered. *)
Theorem context_file_absent_or_malformed (ContextFileName TemplateDirName : string)
    (Unmarshal : string → option GoMap) (absPath : list string) (d : FNode) :
  (∀ root,
     lookup_path (Join absPath ContextFileName) d = inl ENOENT →
     lookup_path absPath d = inr root →
     ∃ t, Get ContextFileName TemplateDirName Unmarshal absPath d = (Some t, None) ∧
          Context t = [] ∧ ∀ st, BindPrompts t st = st) ∧
  (∀ mode buf,
     lookup_path (Join absPath ContextFileName) d = inr (File mode buf) →
     Unmarshal buf = None →
     Get ContextFileName TemplateDirName Unmarshal absPath d = (None, Some ErrJSON)).
Proof.
  split.
  - intros root Hctx Hroot. eexists. unfold Get. rewrite Hctx, Hroot. cbn [IsNotExist].
    by split.
  - intros mode buf Hctx Hbad. unfold Get. by rewrite Hctx, Hbad.
Qed.

Lemma context_file_absent_or_malformed_witness :
  (∃ t, Get "project.json" "template" flat_Unmarshal ["tmpl"] registry_without_context
        = (Some t, None) ∧ Context t = [] ∧ ∀ st, BindPrompts t st = st) ∧
  Get "project.json" "template" flat_Unmarshal ["tmpl"] registry_with_broken_context
  = (None, Some ErrJSON).
Proof.
  split.
  - apply (proj1 (context_file_absent_or_malformed "project.json" "template" flat_Unmarshal
                    ["tmpl"] registry_without_context) (Dir {[ "template" := Dir ∅ ]})).
    + vm_compute. reflexivity.
    + vm_compute. reflexivity.
  - apply (proj2 (context_file_absent_or_malformed "project.json" "template" flat_Unmarshal
                    ["tmpl"] registry_with_broken_context) 420%N
                 ("{" +:+ quoted "name" +:+ ":")).
    + vm_compute. reflexivity.
    + vm_compute. reflexivity.
Defined.

Section Greeting.
Implicit Types (fm : gmap string Binding) (st : State).


End Greeting.




(** C7: in interactive mode, let the table be built for any context. For
    every Group child binding in the table whose gate resolves to false, the
    child prompt never asked the user: after any run of calls of bindings of
    the table, any number of times in any order, and so after [Execute],
    whose templates change the world only by such calls. Gates are memoized:
    the answer at the end is the answer all along. The first part identifies
    the bindings: for a context without repeated names, each child of a
    Group is bound to a closure over the Group's gate prompt, which is also
    the prompt behind the Group's gate binding. *)
Theorem gate_false_children_never_asked (t : dirTemplate) (answers : list Value) :
  ShouldUseDefaults t = false →
  (NoDup (all_names (Context t)) →
   ∀ k cm, (k, VMap cm) ∈ Context t →
     ∃ adv, (cm ≠ [] → (BindPrompts t (∅, fresh answers)).1 !! k = Some (BGate adv)) ∧
            ∀ c, c ∈ keys cm →
              ∃ p, (BindPrompts t (∅, fresh answers)).1 !! c
                   = Some (BChild adv (index cm c) p)) ∧
  (∀ names c adv v p,
     (BindPrompts t (∅, fresh answers)).1 !! c = Some (BChild adv v p) →
     (invoke (BGate adv)
        (calls (BindPrompts t (∅, fresh answers)).1 names
               (BindPrompts t (∅, fresh answers)).2)).1 = Ret (VBool false) →
     cell p ∉ asked (calls (BindPrompts t (∅, fresh answers)).1 names
                           (BindPrompts t (∅, fresh answers)).2)) ∧
  (∀ mk src dirPrefix d c adv v p,
     funcs (Execute mk t src dirPrefix
              {| funcs := ∅; world := fresh answers; disk := d |}).2 !! c
     = Some (BChild adv v p) →
     (invoke (BGate adv)
        (world (Execute mk t src dirPrefix
                  {| funcs := ∅; world := fresh answers; disk := d |}).2)).1
     = Ret (VBool false) →
     cell p ∉ asked (world (Execute mk t src dirPrefix
                              {| funcs := ∅; world := fresh answers; disk := d |}).2)).
Proof.
  intros Hi.
  assert (∀ names c adv v p,
     (BindPrompts t (∅, fresh answers)).1 !! c = Some (BChild adv v p) →
     (invoke (BGate adv)
        (calls (BindPrompts t (∅, fresh answers)).1 names
               (BindPrompts t (∅, fresh answers)).2)).1 = Ret (VBool false) →
     cell p ∉ asked (calls (BindPrompts t (∅, fresh answers)).1 names
                           (BindPrompts t (∅, fresh answers)).2)) as Hrun.
  { intros names c adv v p Hc Hgate Hasked.
    destruct (bindOver_wf t (keys (Context t)) (∅, fresh answers) ∅ Hi) as [roles Hwf].
    { split; cbn; intros ??; by rewrite lookup_empty. }
    rewrite <- BindPrompts_bindOver in Hwf.
    assert (gated roles (BindPrompts t (∅, fresh answers)).2) as Hg0.
    { intros c' g _. rewrite BindPrompts_bindOver.
      destruct (bindOver_world t (keys (Context t)) (∅, fresh answers)) as (_ & -> & _).
      by intros ?%elem_of_nil. }
    pose proof (calls_gated roles _ names _ _ Hwf Hg0) as Hg.
    destruct Hwf as [_ Hok]. destruct (Hok c _ Hc) as [_ Hchild].
    specialize (Hg _ _ Hchild Hasked). cbn in Hgate.
    by rewrite (callPrompt_filled adv _ _ Hg) in Hgate. }
  split; [|split; [exact Hrun|]].
  - intros Hnd k cm Hin. pose proof Hin as (l1 & l2 & Hctx)%list_elem_of_split.
    assert (index (Context t) k = VMap cm) as Hidx
      by (apply index_elem_of; [by apply NoDup_all_names_keys|done]).
    destruct (bindOver t (keys l1) (∅, fresh answers)) as [fm1 w1] eqn:E1.
    assert (∀ n, n ∈ k :: children (VMap cm) →
              (BindPrompts t (∅, fresh answers)).1 !! n
              = (handleBindPrompts t k (fm1, w1)).1 !! n) as Hat.
    { intros n Hn. rewrite (BindPrompts_lookup_at t l1 k (VMap cm) l2) by done.
      rewrite E1. unfold bindOver. cbn [foldl]. by rewrite Hi. }
    exists (gate_of k w1). split.
    + intros Hne. rewrite Hat by (by apply elem_of_cons; left).
      pose proof (handleBindPrompts_lookup t k fm1 w1 k) as Hl. rewrite Hidx in Hl.
      destruct Hl as [[Hk _]|[_ ->]]; [|by rewrite decide_True].
      rewrite Hctx, all_names_app, all_names_cons in Hnd.
      apply NoDup_app in Hnd as (_ & _ & Hnd). apply NoDup_cons in Hnd as [Hk' _].
      destruct Hk'. apply elem_of_app. by left.
    + intros c Hc. rewrite Hat by (by apply elem_of_cons; right).
      pose proof (handleBindPrompts_lookup t k fm1 w1 c) as Hl. rewrite Hidx in Hl.
      by destruct Hl as [[_ ?]|[? _]].
  - intros mk src dirPrefix d c adv v p.
    destruct (Execute_calls mk t src dirPrefix
                {| funcs := ∅; world := fresh answers; disk := d |}) as [-> [names ->]].
    cbn [funcs world]. apply Hrun.
Qed.

Lemma gate_false_children_never_asked_witness :
  (BindPrompts sample_interactive (∅, fresh [VStr "Ada"; VBool false])).1 !! "port"
  = Some (BChild {| cell := 2; field := "server"; defval := VBool false |} (VStr "8080")
                 {| cell := 3; field := "port"; defval := VStr "8080" |}) ∧
  (3 ∉ asked (calls (BindPrompts sample_interactive (∅, fresh [VStr "Ada"; VBool false])).1
                    ["name"; "port"; "proto"; "server"; "port"]
                    (BindPrompts sample_interactive (∅, fresh [VStr "Ada"; VBool false])).2)) ∧
  (3 ∉ asked (world (Execute MKInvalid sample_interactive
                       (inr (SDir [("{{name}}.txt", SFile 420 "port {{port}}")]))
                       ["out"]
                       {| funcs := ∅; world := fresh [VStr "Ada"; VBool false];
                          disk := Dir ∅ |}).2)).
Proof.
  destruct (gate_false_children_never_asked sample_interactive [VStr "Ada"; VBool false]
              eq_refl) as (_ & Hrun & Hexecute).
  split; [vm_compute; reflexivity|]. split.
  - apply (Hrun ["name"; "port"; "proto"; "server"; "port"] "port"
                {| cell := 2; field := "server"; defval := VBool false |} (VStr "8080")
                {| cell := 3; field := "port"; defval := VStr "8080" |}).
    + vm_compute. reflexivity.
    + vm_compute. reflexivity.
  - apply (Hexecute MKInvalid
             (inr (SDir [("{{name}}.txt", SFile 420 "port {{port}}")]))
             ["out"] (Dir ∅) "port"
             {| cell := 2; field := "server"; defval := VBool false |} (VStr "8080")
             {| cell := 3; field := "port"; defval := VStr "8080" |}).
    + vm_compute. reflexivity.
    + vm_compute. reflexivity.
Defined.

(** * Further properties of the binder *)

Section BinderMore.
Implicit Types (t : dirTemplate) (fm : gmap string Binding) (w : World).
Implicit Types (m ctx : GoMap) (k c n : string) (v : Value).

Lemma index_in_keys m k : k ∈ keys m → (k, index m k) ∈ m.
Proof.
  induction m as [|[k' v'] m IH]; [by intros ?%elem_of_nil|].
  cbn [keys fmap list_fmap fst index]. intros [->|Hin]%elem_of_cons.
  - rewrite decide_True by done. by apply elem_of_cons; left.
  - case_decide as Hk; [subst; by apply elem_of_cons; left|].
    apply elem_of_cons. right. by apply IH.
Qed.

Lemma written_all_names t k n :
  k ∈ keys (Context t) → n ∈ written t k → n ∈ all_names (Context t).
Proof.
  intros Hk Hn. apply (elem_of_all_names _ k (index (Context t) k)); [|done].
  by apply index_in_keys.
Qed.

Lemma handleBindDefaults_writes t k fm :
  handleBindDefaults t k fm
  = foldl (λ fm kv, <[kv.1 := kv.2]> fm) fm (defaults_writes_of t k).
Proof.
  unfold handleBindDefaults, defaults_writes_of.
  destruct (index (Context t) k) as [| | | | |cm]; try done.
  rewrite foldl_app, foldl_fmap. by case_decide.
Qed.

Lemma foldl_insert_union (l : list (string * Binding)) fm :
  foldl (λ fm kv, <[kv.1 := kv.2]> fm) fm l = list_to_map (reverse l) ∪ fm.
Proof.
  revert fm. induction l as [|[k b] l IH]; intros fm.
  - cbn. by rewrite (left_id_L ∅ (∪)).
  - cbn [foldl fst snd]. rewrite IH, reverse_cons, list_to_map_app.
    rewrite <- (assoc_L (∪)). f_equal. cbn.
    by rewrite insert_union_singleton_l, insert_empty.
Qed.

Lemma BindPrompts_defaults_union t fm w :
  ShouldUseDefaults t = true →
  BindPrompts t (fm, w) = (list_to_map (reverse (defaults_writes t)) ∪ fm, w).
Proof.
  intros Hd. rewrite BindPrompts_bindOver, bindOver_defaults by done. f_equal.
  rewrite <- foldl_insert_union. unfold defaults_writes.
  generalize (keys (Context t)). intros ks. revert fm.
  induction ks as [|k ks IH]; intros fm; [done|].
  cbn [foldl mbind list_bind]. rewrite foldl_app, <- handleBindDefaults_writes. apply IH.
Qed.
End BinderMore.

Section BinderOrder.
Implicit Types (t : dirTemplate) (fm : gmap string Binding) (w : World).
Implicit Types (m ctx : GoMap) (k c n : string) (v : Value).

Lemma defaults_writes_of_names t k :
  (defaults_writes_of t k).*1 `sublist_of` k :: children (index (Context t) k).
Proof.
  unfold defaults_writes_of. destruct (index (Context t) k) as [| | | | |cm];
    try (cbn; by apply sublist_skip).
  rewrite fmap_app, <- list_fmap_compose. cbn [children].
  replace ((fst ∘ λ childKey : string, (childKey, BDefault (index cm childKey)))
             <$> keys cm) with (keys cm) by (by rewrite <- (list_fmap_id (keys cm)) at 1).
  case_decide; cbn; [done|by apply sublist_cons].
Qed.

Lemma defaults_writes_names_of t (l : GoMap) :
  Forall (λ kv, index (Context t) kv.1 = kv.2) l →
  (keys l ≫= defaults_writes_of t).*1 `sublist_of` all_names l.
Proof.
  induction l as [|[k v] l IH]; [done|]. intros [Hk Hidx]%Forall_cons.
  cbn [fst snd] in Hk.
  cbn [keys fmap list_fmap mbind list_bind fst snd]. rewrite fmap_app.
  rewrite all_names_cons, app_comm_cons.
  apply sublist_app; [|by apply IH].
  rewrite <- Hk. apply defaults_writes_of_names.
Qed.

Lemma defaults_writes_names t :
  NoDup (keys (Context t)) →
  (defaults_writes t).*1 `sublist_of` all_names (Context t).
Proof.
  intros Hnd. apply defaults_writes_names_of.
  apply Forall_forall. intros [k v] Hin. by apply index_elem_of.
Qed.

Lemma bind_pointwise_Permutation {A B} (f g : A → list B) (l : list A) :
  (∀ x, f x ≡ₚ g x) → l ≫= f ≡ₚ l ≫= g.
Proof.
  intros Hfg. induction l as [|x l IH]; [done|]. cbn. by rewrite (Hfg x), IH.
Qed.

Lemma same_context_writes_of t t' k :
  same_context (Context t) (Context t') →
  defaults_writes_of t k ≡ₚ defaults_writes_of t' k.
Proof.
  intros [_ Hsame]. specialize (Hsame k). unfold defaults_writes_of.
  destruct (index (Context t) k) as [| | | | |cm] eqn:E;
    destruct (index (Context t') k) as [| | | | |cm'] eqn:E'; try done;
    try (by injection Hsame as ->).
  destruct Hsame as [Hkeys Hidx].
  assert (length cm = length cm') as ->.
  { rewrite <- (length_fmap fst cm), <- (length_fmap fst cm'). by apply Permutation_length. }
  apply Permutation_app; [done|].
  rewrite (list_fmap_ext _ (λ childKey, (childKey, BDefault (index cm' childKey))) (keys cm))
    by (intros; by rewrite Hidx).
  by apply fmap_Permutation.
Qed.
End BinderOrder.

(** X1: [BindPrompts] assigns only names the context declares: every other
    entry of the function map (the helper functions a template can call) is
    the same afterwards, in both modes. *)
Theorem BindPrompts_keeps_other_names (t : dirTemplate)
    (st : gmap string Binding * World) (n : string) :
  n ∉ all_names (Context t) →
  (BindPrompts t st).1 !! n = st.1 !! n.
Proof.
  intros Hn. rewrite BindPrompts_bindOver. apply bindOver_frame.
  intros k Hk Hw. apply Hn. by eapply written_all_names.
Qed.

Lemma BindPrompts_keeps_other_names_witness :
  (BindPrompts sample_interactive ({[ "helper" := BDefault (VStr "h") ]}, fresh [])).1
    !! "helper" = Some (BDefault (VStr "h")).
Proof.
  rewrite (BindPrompts_keeps_other_names sample_interactive _ "helper").
  - reflexivity.
  - apply (bool_decide_unpack _). vm_compute. exact I.
Defined.



(** X3: in defaults-only mode, when no name is declared twice, the table
    does not depend on the order in which [range] visits the context and
    the Groups: two association lists that stand for the same maps give the
    same function map. *)
Theorem defaults_table_independent_of_order (t t' : dirTemplate)
    (fm0 : gmap string Binding) (w : World) :
  ShouldUseDefaults t = true → ShouldUseDefaults t' = true →
  same_context (Context t) (Context t') →
  NoDup (all_names (Context t)) →
  BindPrompts t (fm0, w) = BindPrompts t' (fm0, w).
Proof.
  intros Hd Hd' Hsame Hnd.
  rewrite (BindPrompts_defaults_union t fm0 w Hd), (BindPrompts_defaults_union t' fm0 w Hd').
  do 2 f_equal. apply list_to_map_proper.
  - rewrite fmap_reverse, reverse_Permutation.
    eapply sublist_NoDup; [exact Hnd|].
    apply defaults_writes_names. by apply NoDup_all_names_keys.
  - rewrite !reverse_Permutation. unfold defaults_writes.
    rewrite (bind_Permutation _ _ _ (proj1 Hsame)).
    apply bind_pointwise_Permutation. intros k. by apply same_context_writes_of.
Qed.

Lemma defaults_table_independent_of_order_witness :
  BindPrompts sample_defaults (∅, fresh [])
  = BindPrompts
      (with_context
         [("server", VMap [("proto", VList [VStr "tcp"; VStr "udp"]); ("port", VStr "8080")]);
          ("license", VList [VStr "MIT"; VStr "GPL"]);
          ("name", VStr "World")] true)
      (∅, fresh []).
Proof.
  apply defaults_table_independent_of_order.
  - reflexivity.
  - reflexivity.
  - split; [apply (bool_decide_unpack _); vm_compute; exact I|]. intros k.
    destruct (decide (k = "name")) as [->|Hname]; [vm_compute; reflexivity|].
    destruct (decide (k = "license")) as [->|Hlicense]; [vm_compute; reflexivity|].
    destruct (decide (k = "server")) as [->|Hserver].
    + change (same_entries
                [("port", VStr "8080"); ("proto", VList [VStr "tcp"; VStr "udp"])]
                [("proto", VList [VStr "tcp"; VStr "udp"]); ("port", VStr "8080")]).
      split; [apply perm_swap|]. intros c.
      destruct (decide (c = "port")) as [->|Hport]; [reflexivity|].
      destruct (decide (c = "proto")) as [->|Hproto]; [reflexivity|].
      cbn [index]. by rewrite !decide_False by congruence.
    + cbn [Context sample_defaults with_context sample_context index].
      by rewrite !decide_False by congruence.
  - apply (bool_decide_unpack _). vm_compute. exact I.
Defined.

Section DefaultsNeverAsk.
Implicit Types (t : dirTemplate) (fm : gmap string Binding) (w : World).

Lemma defaults_writes_never_ask t n b : (n, b) ∈ defaults_writes t → never_asks b.
Proof.
  unfold defaults_writes. intros (k & Hin & _)%list_elem_of_bind.
  unfold defaults_writes_of in Hin.
  assert (∀ v, never_asks (BDefault v)) as Hdef.
  { intros v w. cbn. by destruct v as [| | | |[|]|]. }
  destruct (index (Context t) k) as [| | | | |cm];
    try (apply list_elem_of_singleton in Hin as [= _ ->]; apply Hdef).
  apply elem_of_app in Hin as [Hin|Hin].
  - case_decide; [|by apply elem_of_nil in Hin].
    apply list_elem_of_singleton in Hin as [= _ ->]. by intros w.
  - apply list_elem_of_fmap in Hin as (c & [= _ ->] & _). apply Hdef.
Qed.

Lemma defaults_table_never_asks t fm w :
  ShouldUseDefaults t = true →
  (∀ n b, fm !! n = Some b → never_asks b) →
  ∀ n b, (BindPrompts t (fm, w)).1 !! n = Some b → never_asks b.
Proof.
  intros Hd Hfm n b. rewrite (BindPrompts_defaults_union t fm w Hd). cbn [fst].
  intros [Hw|[_ Hold]]%lookup_union_Some_raw; [|by eapply Hfm].
  apply elem_of_list_to_map_2 in Hw. rewrite elem_of_reverse in Hw.
  by eapply defaults_writes_never_ask.
Qed.

Lemma calls_never_ask fm names w :
  (∀ n b, fm !! n = Some b → never_asks b) → calls fm names w = w.
Proof.
  intros Hfm. revert w. induction names as [|n names IH]; intros w; [done|].
  change (calls fm (n :: names) w) with (calls fm names (call fm n w)).
  rewrite IH. unfold call. destruct (fm !! n) as [b|] eqn:Hb; [|done].
  apply (Hfm n b Hb w).
Qed.
End DefaultsNeverAsk.

(** X4: after [UseDefaultValues], [Execute] never asks the user, whatever
    the templates call: if the bindings already in the function map ask
    nothing, the state of the prompts (memo cells, questions asked, pending
    answers) is after the render what it was before, and the bindings in the
    function map still ask nothing. *)
Theorem Execute_with_defaults_never_asks (mk : MissingKey) (t : dirTemplate)
    (src : Errno + SrcNode) (dirPrefix : list string) (st : State) :
  (∀ n b, funcs st !! n = Some b → never_asks b) →
  world (Execute mk (UseDefaultValues t) src dirPrefix st).2 = world st ∧
  ∀ n b, funcs (Execute mk (UseDefaultValues t) src dirPrefix st).2 !! n = Some b →
         never_asks b.
Proof.
  intros Hfm.
  destruct (Execute_calls mk (UseDefaultValues t) src dirPrefix st) as [Hf [names Hw]].
  pose proof (defaults_table_never_asks (UseDefaultValues t) (funcs st) (world st)
                eq_refl Hfm) as Htable.
  rewrite Hf, Hw. split; [|exact Htable].
  rewrite calls_never_ask by exact Htable.
  rewrite BindPrompts_bindOver, bindOver_defaults; done.
Qed.

Lemma Execute_with_defaults_never_asks_witness :
  world (Execute MKInvalid (UseDefaultValues sample_interactive)
           (inr (SDir [("{{name}}.txt", SFile 420 "port {{port}}")])) ["out"]
           {| funcs := ∅; world := fresh [VStr "Ada"]; disk := Dir ∅ |}).2
  = fresh [VStr "Ada"].
Proof.
  apply (Execute_with_defaults_never_asks MKInvalid sample_interactive
           (inr (SDir [("{{name}}.txt", SFile 420 "port {{port}}")])) ["out"]
           {| funcs := ∅; world := fresh [VStr "Ada"]; disk := Dir ∅ |}).
  intros n b Hb. cbn in Hb. by rewrite lookup_empty in Hb.
Defined.

(** X5: a Group child that has the name of its Group takes the Group's entry
    in the function map. The gate is assigned first (lines 221, 257) and the
    children after it (lines 225, 267): under the Group's name the table
    then holds the child binding, in both modes, and no gate binding. *)
Theorem child_named_like_group_replaces_gate (t : dirTemplate) (parentKey : string)
    (childMap : GoMap) (fm : gmap string Binding) (w : World) :
  index (Context t) parentKey = VMap childMap →
  parentKey ∈ keys childMap →
  handleBindDefaults t parentKey fm !! parentKey
  = Some (BDefault (index childMap parentKey)) ∧
  ∃ p, (handleBindPrompts t parentKey (fm, w)).1 !! parentKey
       = Some (BChild (gate_of parentKey w) (index childMap parentKey) p).
Proof.
  intros Hidx Hin. split.
  - by rewrite handleBindDefaults_lookup, Hidx, decide_True.
  - pose proof (handleBindPrompts_lookup t parentKey fm w parentKey) as Hl.
    rewrite Hidx in Hl. by destruct Hl as [[_ ?]|[? _]].
Qed.

Lemma child_named_like_group_replaces_gate_witness :
  handleBindDefaults (with_context [("db", VMap [("db", VStr "main")])] true) "db" ∅ !! "db"
  = Some (BDefault (VStr "main")) ∧
  ∃ p, (handleBindPrompts (with_context [("db", VMap [("db", VStr "main")])] false) "db"
          (∅, fresh [])).1 !! "db"
       = Some (BChild (gate_of "db" (fresh [])) (VStr "main") p).
Proof.
  apply (child_named_like_group_replaces_gate
           (with_context [("db", VMap [("db", VStr "main")])] true) "db"
           [("db", VStr "main")] ∅ (fresh [])).
  - reflexivity.
  - apply (bool_decide_unpack _). vm_compute. exact I.
Defined.

(** * Further properties of the walk *)

Section Targets.
Implicit Types (st : State) (rel dirPrefix p q : list string) (d : FNode).

Lemma entry_err p : ∀ d e, entry p d = inl e → e = ENOENT ∨ e = ENOTDIR.
Proof.
  induction p as [|c p IH]; intros d e; [done|].
  destruct d as [m s|es]; [intros [= <-]; by right|].
  destruct p as [|c' p]; [done|]. cbn [entry]. 
  destruct (es !! c) as [n'|]; [apply IH|intros [= <-]; by left].
Qed.

Lemma entry_err_nonempty p d e : entry p d = inl e → p ≠ [].
Proof. by destruct p. Qed.

(** What [os.Remove] leaves of a target that can be replaced. *)
Lemma Remove_replaceable p d o :
  p ≠ [] → entry p d = inr o → replaceable o →
  ∃ d1, match Remove p d with
        | inl e => if IsNotExist e then Some d else None
        | inr d1 => Some d1
        end = Some d1 ∧ entry p d1 = inr None ∧ d1 = del p d.
Proof.
  intros Hne He Hrep. rewrite (Remove_entry p d o) by done.
  destruct o as [[m s|es]|]; cbn in Hrep |- *.
  - exists (del p d). split; [done|]. split; [|done]. by eapply (entry_place p _ None).
  - rewrite decide_True by done. exists (del p d). split; [done|].
    split; [|done]. by eapply (entry_place p _ None).
  - exists d. split; [done|]. split; [done|].
    symmetry. by apply (place_id p None).
Qed.
End Targets.



(** X7: a file of the template whose target cannot be written. When the
    directory of the target cannot be reached, or when the target is a
    directory that is not empty, the walk function returns the error of
    [os.OpenFile] or of [os.Remove], the template of the file is not parsed
    and the disk is what it was: nothing has been removed or created. *)
Theorem blocked_file_target_keeps_disk (mk : MissingKey) (dirPrefix rel : list string)
    (mode : N) (data : string) (st : State) (newName : string) (w1 : World) :
  render mk (funcs st) (Rel rel) (world st) = (Done, newName, w1) →
  (∀ e, entry (Join dirPrefix newName) (disk st) = inl e →
        visit mk dirPrefix rel (inr (mode, data)) st = (Failed (ErrOS e), set_world st w1)) ∧
  (∀ es, entry (Join dirPrefix newName) (disk st) = inr (Some (Dir es)) →
         dom es ≠ ∅ →
         visit mk dirPrefix rel (inr (mode, data)) st
         = (Failed (ErrOS ENOTEMPTY), set_world st w1)).
Proof.
  intros Hren. split.
  - intros e He. unfold visit. rewrite Hren. cbn [set_world disk].
    assert (Join dirPrefix newName ≠ []) as Hne by (by eapply entry_err_nonempty).
    unfold Remove. rewrite (update_entry_err _ _ _ e) by done.
    destruct (entry_err _ _ _ He) as [-> | ->]; [|done].
    cbn [IsNotExist]. unfold OpenFile.
    rewrite (update_entry_err _ _ _ ENOENT) by done. reflexivity.
  - intros es He Hdom. unfold visit. rewrite Hren. cbn [set_world disk].
    destruct (Join dirPrefix newName) as [|c p] eqn:Hp.
    + cbn in He. injection He as He. unfold Remove. cbn [update]. rewrite He.
      by rewrite decide_False.
    + rewrite (Remove_entry (c :: p) _ _ ltac:(done) He). by rewrite decide_False.
Qed.

Lemma blocked_file_target_keeps_disk_witness :
  visit MKInvalid ["out"] ["greeting.txt"] (inr (420%N, "Hello, {{name}}!"))
    (sample_state blocked_disk)
  = (Failed (ErrOS ENOTEMPTY), sample_state blocked_disk) ∧
  visit MKInvalid ["out"] ["docs"; "a.txt"] (inr (420%N, "Hello, {{name}}!"))
    (sample_state docs_file_disk)
  = (Failed (ErrOS ENOTDIR), sample_state docs_file_disk).
Proof.
  split.
  - apply (proj2 (blocked_file_target_keeps_disk MKInvalid ["out"] ["greeting.txt"] 420
                    "Hello, {{name}}!" (sample_state blocked_disk) "greeting.txt" (fresh [])
                    eq_refl) {[ "keep" := File 420 "x" ]}).
    + vm_compute. reflexivity.
    + apply (bool_decide_unpack _). vm_compute. exact I.
  - apply (proj1 (blocked_file_target_keeps_disk MKInvalid ["out"] ["docs"; "a.txt"] 420
                    "Hello, {{name}}!" (sample_state docs_file_disk) "docs/a.txt" (fresh [])
                    eq_refl) ENOTDIR).
    vm_compute. reflexivity.
Defined.

(** X8: a file of the template that [Parse] rejects, at a target that can
    be replaced. [template.Must] panics after the old target was removed and
    the new file was opened; the deferred function finds the new file empty
    and removes it. Nothing is at the target afterwards, whatever was there
    before. *)
Theorem unparsable_file_removes_target (mk : MissingKey) (dirPrefix rel : list string)
    (mode : N) (data : string) (st : State) (newName : string) (w1 : World)
    (o : option FNode) :
  render mk (funcs st) (Rel rel) (world st) = (Done, newName, w1) →
  Join dirPrefix newName ≠ [] →
  entry (Join dirPrefix newName) (disk st) = inr o →
  replaceable o →
  Parse (funcs st) data = PError →
  visit mk dirPrefix rel (inr (mode, data)) st
  = (Panicked, {| funcs := funcs st; world := w1;
                  disk := del (Join dirPrefix newName) (disk st) |}) ∧
  lookup_path (Join dirPrefix newName)
              (disk (visit mk dirPrefix rel (inr (mode, data)) st).2) = inl ENOENT.
Proof.
  intros Hren Hne He Hrep Hparse.
  assert (visit mk dirPrefix rel (inr (mode, data)) st
          = (Panicked, {| funcs := funcs st; world := w1;
                          disk := del (Join dirPrefix newName) (disk st) |})) as Hv.
  { unfold visit. rewrite Hren.
    set (target := Join dirPrefix newName) in *. cbn [set_world set_disk funcs world disk].
    destruct (Remove_replaceable target (disk st) o Hne He Hrep) as (d1 & Hrm & He1 & Hd1).
    assert (match OpenFile target mode d1 with
            | inl e => (Failed (ErrOS e), {| funcs := funcs st; world := w1; disk := d1 |})
            | inr d2 =>
                match Parse (funcs st) data with
                | PError =>
                    (Panicked, {| funcs := funcs st; world := w1; disk := prune target d2 |})
                | PUnmodelled =>
                    (Unmodelled, {| funcs := funcs st; world := w1; disk := d2 |})
                | POk ns =>
                    let '(r, out, w2) := exec mk (funcs st) ns w1 "" in
                    (r, {| funcs := funcs st; world := w2;
                           disk := prune target
                                     match Write target out d2 with
                                     | inl _ => d2
                                     | inr d => d
                                     end |})
                end
            end = (Panicked, {| funcs := funcs st; world := w1;
                                disk := del target (disk st) |})) as Hwrite.
    { rewrite (OpenFile_entry target mode d1 None) by done. rewrite Hparse.
      rewrite (prune_entry target _ mode "") by (by eauto using entry_put).
      cbn [isOnlyWhitespace].
      change (del target ?d) with (place target None d).
      change (put target ?n ?d) with (place target (Some n) d).
      rewrite (place_place target None) by done.
      subst d1. change (del target ?d) with (place target None d).
      by rewrite (place_place target o). }
    destruct (Remove target (disk st)) as [e|d1'].
    - destruct (IsNotExist e); [|done]. injection Hrm as <-. by apply Hwrite.
    - injection Hrm as <-. by apply Hwrite. }
  split; [done|]. rewrite Hv. cbn [snd disk].
  change (del ?p ?d) with (place p None d). by rewrite (lookup_place _ o None).
Qed.

Lemma unparsable_file_removes_target_witness :
  visit MKInvalid ["out"] ["greeting.txt"] (inr (420%N, "Hello, {{name"))
    (sample_state sample_disk)
  = (Panicked, sample_state (Dir {[ "out" := Dir ∅ ]})).
Proof.
  refine (eq_trans
            (proj1 (unparsable_file_removes_target MKInvalid ["out"] ["greeting.txt"] 420
                      "Hello, {{name" (sample_state sample_disk) "greeting.txt" (fresh [])
                      (Some (File 384 "An older greeting, longer than the new one, is here."))
                      eq_refl _ _ I eq_refl)) _).
  - done.
  - vm_compute. reflexivity.
  - vm_compute. reflexivity.
Defined.

Section Order.
Implicit Types (st : State) (rel dirPrefix : list string).
Implicit Types (es : list (string * SrcNode)).


End Order.



Section Frame.
Implicit Types (st : State) (p q : list string) (d : FNode).







End Frame.



Section Again.
Implicit Types (st : State) (rel dirPrefix : list string) (n : SrcNode).
Implicit Types (es : list (string * SrcNode)) (E : gmap string FNode).


End Again.



(** * Further properties of [Get] *)

Section Loading.
Implicit Types (p : list string) (d : FNode) (c : string).

Lemma lookup_path_snoc p c : ∀ d,
  lookup_path (p ++ [c]) d =
  match lookup_path p d with
  | inl e => inl e
  | inr (File _ _) => inl ENOTDIR
  | inr (Dir es) => match es !! c with Some n => inr n | None => inl ENOENT end
  end.
Proof.
  induction p as [|c' p IH]; intros d; cbn [app lookup_path].
  - destruct d as [m s|es]; [done|]. by destruct (es !! c).
  - destruct d as [m s|es]; [done|]. destruct (es !! c') as [n'|]; [apply IH|done].
Qed.

Lemma Join_file_name p c : file_name c → Join p c = p ++ [c].
Proof.
  intros Hc. unfold Join. rewrite split_slash_name by apply Hc.
  apply Join_names. by apply Forall_singleton.
Qed.
End Loading.

(** X12: [Get] returns a template together with an error in one case only:
    nothing is at [absPath]. The context file is then missing too, which
    [Get] takes for "no context", so the template has an empty context, and
    the error is the one of [times.Stat]. *)
Theorem Get_template_with_error (ContextFileName TemplateDirName : string)
    (Unmarshal : string → option GoMap) (absPath : list string) (d : FNode)
    (t : dirTemplate) (err : Error) :
  file_name ContextFileName →
  Get ContextFileName TemplateDirName Unmarshal absPath d = (Some t, Some err) →
  lookup_path absPath d = inl ENOENT ∧ err = ErrOS ENOENT ∧ Context t = [].
Proof.
  intros Hc. unfold Get. rewrite (Join_file_name _ _ Hc), lookup_path_snoc.
  destruct (lookup_path absPath d) as [e|[m s|es]].
  - destruct e; cbn [IsNotExist]; try done. by intros [= <- <-].
  - done.
  - destruct (es !! ContextFileName) as [[m buf|es']|]; cbn [IsNotExist]; try done.
    by destruct (Unmarshal buf).
Qed.

Lemma Get_template_with_error_witness :
  lookup_path ["tmpl"] (Dir ∅) = inl ENOENT ∧
  ErrOS ENOENT = ErrOS ENOENT ∧
  Context {| Path := ["tmpl"; "template"]; Context := []; ShouldUseDefaults := false |} = [].
Proof.
  apply (Get_template_with_error "project.json" "template" flat_Unmarshal ["tmpl"] (Dir ∅)
           {| Path := ["tmpl"; "template"]; Context := []; ShouldUseDefaults := false |}
           (ErrOS ENOENT)).
  - repeat split; try discriminate.
  - vm_compute. reflexivity.
Defined.

(** X13: when the context file is a regular file that [json.Unmarshal]
    accepts, [Get] returns the template and no error: [times.Stat] cannot
    fail, because the directory of a file that was just opened exists. The
    template has the decoded context, the path of the template directory
    inside [absPath], and asks for its values ([ShouldUseDefaults] is not
    set). *)
Theorem Get_with_context_file (ContextFileName TemplateDirName : string)
    (Unmarshal : string → option GoMap) (absPath : list string) (d : FNode)
    (mode : N) (buf : string) (ctx : GoMap) :
  file_name ContextFileName →
  lookup_path (Join absPath ContextFileName) d = inr (File mode buf) →
  Unmarshal buf = Some ctx →
  Get ContextFileName TemplateDirName Unmarshal absPath d
  = (Some {| Path := Join absPath TemplateDirName; Context := ctx;
             ShouldUseDefaults := false |}, None).
Proof.
  intros Hc Hf Hu. unfold Get. rewrite Hf, Hu.
  rewrite (Join_file_name _ _ Hc), lookup_path_snoc in Hf.
  by destruct (lookup_path absPath d) as [e|[m s|es]].
Qed.

Lemma Get_with_context_file_witness :
  Get "project.json" "template" flat_Unmarshal ["tmpl"] registry_with_context
  = (Some {| Path := ["tmpl"; "template"]; Context := [("name", VStr "World")];
             ShouldUseDefaults := false |}, None).
Proof.
  refine (eq_trans
            (Get_with_context_file "project.json" "template" flat_Unmarshal ["tmpl"]
               registry_with_context 420
               ("{" +:+ quoted "name" +:+ ":" +:+ quoted "World" +:+ "}")
               [("name", VStr "World")] _ _ _) _).
  - repeat split; try discriminate.
  - vm_compute. reflexivity.
  - vm_compute. reflexivity.
  - vm_compute. reflexivity.
Defined.

(** * Rendered names are joined as they come *)

Section Names.
Implicit Types (fm : gmap string Binding) (st : State) (c : string).


End Names.



(** * Plain names stay inside the destination *)

Section Confined.
Implicit Types (st : State) (rel dirPrefix p q : list string) (n : SrcNode).
Implicit Types (es : list (string * SrcNode)).







End Confined.


